(** * Index-scan executor: the cursor walker of [IndexScanExecutor]

    A shallow embedding of [src/ee/executors/indexscanexecutor.h]:
    the static helper [getNextTuple], the constructor of
    [IndexScanExecutor] and [p_isSuspendable].  The helper writes
    through two pointers ([TableTuple* tuple], [IndexCursor* cursor]);
    both cells are threaded explicitly through a small state monad, and
    every call made on the index is appended to a log so that the order
    of the cursor operations can be stated. *)

From Stdlib Require Import ZArith List Bool Lia.
Import ListNotations.

Set Implicit Arguments.

(** ** Data *)

(** Modelled from the spec: the enumeration [IndexLookupType] is declared
    outside the header.  The header names [INDEX_LOOKUP_TYPE_EQ] and
    [INDEX_LOOKUP_TYPE_GEO_CONTAINS]; the remaining variants are the ones
    the data model lists (greater-than, greater-or-equal, less-than,
    less-or-equal, range). *)
Inductive IndexLookupType : Type :=
| INDEX_LOOKUP_TYPE_EQ
| INDEX_LOOKUP_TYPE_GT
| INDEX_LOOKUP_TYPE_GTE
| INDEX_LOOKUP_TYPE_LT
| INDEX_LOOKUP_TYPE_LTE
| INDEX_LOOKUP_TYPE_RANGE
| INDEX_LOOKUP_TYPE_GEO_CONTAINS.

(** The comparison [lookupType == c] of the source. *)
Definition lookup_eqb (a b : IndexLookupType) : bool :=
  match a, b with
  | INDEX_LOOKUP_TYPE_EQ, INDEX_LOOKUP_TYPE_EQ
  | INDEX_LOOKUP_TYPE_GT, INDEX_LOOKUP_TYPE_GT
  | INDEX_LOOKUP_TYPE_GTE, INDEX_LOOKUP_TYPE_GTE
  | INDEX_LOOKUP_TYPE_LT, INDEX_LOOKUP_TYPE_LT
  | INDEX_LOOKUP_TYPE_LTE, INDEX_LOOKUP_TYPE_LTE
  | INDEX_LOOKUP_TYPE_RANGE, INDEX_LOOKUP_TYPE_RANGE
  | INDEX_LOOKUP_TYPE_GEO_CONTAINS, INDEX_LOOKUP_TYPE_GEO_CONTAINS => true
  | _, _ => false
  end.

(** Modelled from the spec: [SortDirectionType] (ascending or descending). *)
Inductive SortDirectionType : Type :=
| SORT_DIRECTION_TYPE_ASC
| SORT_DIRECTION_TYPE_DESC.

(** A [TableTuple] is a view over one row, or the null tuple ([None]),
    the one [isNullTuple()] answers [true] for. *)
Definition TableTuple (Row : Type) : Type := option Row.

Definition isNullTuple {Row : Type} (t : TableTuple Row) : bool :=
  match t with
  | None => true
  | Some _ => false
  end.

(** The two virtual cursor methods of [TableIndex] that the helper calls.
    Each takes the cursor by reference, so it returns the new cursor
    together with the tuple. *)
Class TableIndexOps (Row TableIndex IndexCursor : Type) : Type := {
  nextValueAtKey : TableIndex -> IndexCursor -> TableTuple Row * IndexCursor;
  nextValue : TableIndex -> IndexCursor -> TableTuple Row * IndexCursor
}.

(** Which index method a call went to. *)
Inductive CursorCall : Type :=
| CallNextValueAtKey
| CallNextValue.

(** ** The cells [getNextTuple] reads and writes *)

Section Walker.

Context {Row TableIndex IndexCursor : Type}.
Context {ops : TableIndexOps Row TableIndex IndexCursor}.

(** [tuple] is [*tuple] and [cursor] is [*cursor]; [calls] is not in the
    source, it is the log of the index calls made so far, oldest first. *)
Record Mem : Type := mkMem {
  tuple : TableTuple Row;
  cursor : IndexCursor;
  calls : list CursorCall
}.

Definition M (A : Type) : Type := Mem -> A * Mem.

Definition ret {A : Type} (a : A) : M A := fun m => (a, m).

Definition bind {A B : Type} (c : M A) (k : A -> M B) : M B :=
  fun m => let (a, m') := c m in k a m'.

Notation "x <- c ;; k" := (bind c (fun x => k))
  (at level 61, c at next level, right associativity).
Notation "c ;; k" := (bind c (fun _ => k))
  (at level 61, right associativity).

(** [*tuple = index->nextValueAtKey( *cursor )] *)
Definition store_nextValueAtKey (index : TableIndex) : M unit :=
  fun m =>
    let (t, c) := nextValueAtKey index (cursor m) in
    (tt, mkMem t c (calls m ++ [CallNextValueAtKey])).

(** [*tuple = index->nextValue( *cursor )] *)
Definition store_nextValue (index : TableIndex) : M unit :=
  fun m =>
    let (t, c) := nextValue index (cursor m) in
    (tt, mkMem t c (calls m ++ [CallNextValue])).

(** [tuple->isNullTuple()] *)
Definition tuple_isNullTuple : M bool :=
  fun m => (isNullTuple (tuple m), m).

(** [lookupType == INDEX_LOOKUP_TYPE_EQ
     || lookupType == INDEX_LOOKUP_TYPE_GEO_CONTAINS] *)
Definition is_eq_or_geo (lookupType : IndexLookupType) : bool :=
  lookup_eqb lookupType INDEX_LOOKUP_TYPE_EQ
  || lookup_eqb lookupType INDEX_LOOKUP_TYPE_GEO_CONTAINS.

(** The guard of the second [if]:
    [(lookupType != INDEX_LOOKUP_TYPE_EQ
      && lookupType != INDEX_LOOKUP_TYPE_GEO_CONTAINS)
     || activeNumOfSearchKeys == 0].  The [int] is only ever compared
    with zero, so it is an unbounded integer here. *)
Definition takes_second_branch (lookupType : IndexLookupType)
    (activeNumOfSearchKeys : Z) : bool :=
  (negb (lookup_eqb lookupType INDEX_LOOKUP_TYPE_EQ)
   && negb (lookup_eqb lookupType INDEX_LOOKUP_TYPE_GEO_CONTAINS))
  || (activeNumOfSearchKeys =? 0)%Z.

(** The second [if] of the helper and its final [return]. *)
Definition getNextTuple_tail (lookupType : IndexLookupType)
    (index : TableIndex) (activeNumOfSearchKeys : Z) : M bool :=
  (if takes_second_branch lookupType activeNumOfSearchKeys
   then store_nextValue index
   else ret tt) ;;
  null <- tuple_isNullTuple ;;
  ret (negb null).

(** [IndexScanExecutor::getNextTuple].  The [return true] inside the
    first [if] leaves the function; every other path runs the tail. *)
Definition getNextTuple (lookupType : IndexLookupType)
    (index : TableIndex) (activeNumOfSearchKeys : Z) : M bool :=
  if is_eq_or_geo lookupType then
    store_nextValueAtKey index ;;
    null <- tuple_isNullTuple ;;
    if negb null then ret true
    else getNextTuple_tail lookupType index activeNumOfSearchKeys
  else getNextTuple_tail lookupType index activeNumOfSearchKeys.

(** The cursor as the second [if] finds it: already moved by
    [nextValueAtKey] when the first [if] ran. *)
Definition cursor_at_second_branch (lookupType : IndexLookupType)
    (index : TableIndex) (m : Mem) : IndexCursor :=
  if is_eq_or_geo lookupType
  then snd (nextValueAtKey index (cursor m))
  else cursor m.

(** The calls one step added to the log. *)
Definition calls_since (before after : Mem) : list CursorCall :=
  skipn (length (calls before)) (calls after).

(** ** Iterating the helper *)

(** One step of the walker as its callers read it: the candidate row
    when the helper answered [true], nothing when it answered [false]. *)
Definition next_row (lookupType : IndexLookupType) (index : TableIndex)
    (activeNumOfSearchKeys : Z) (m : Mem) : TableTuple Row * Mem :=
  let (more, m') := getNextTuple lookupType index activeNumOfSearchKeys m in
  (if more then tuple m' else None, m').

(** [while (getNextTuple(...)) { ... }]: the rows the helper hands out
    until it first answers [false].  The cursor is an arbitrary
    collaborator and need not ever run dry, hence the fuel. *)
Fixpoint walk (fuel : nat) (lookupType : IndexLookupType)
    (index : TableIndex) (activeNumOfSearchKeys : Z) (m : Mem)
    : option (list Row * Mem) :=
  match fuel with
  | O => None
  | S fuel' =>
      match next_row lookupType index activeNumOfSearchKeys m with
      | (Some r, m') =>
          match walk fuel' lookupType index activeNumOfSearchKeys m' with
          | Some (rs, m'') => Some (r :: rs, m'')
          | None => None
          end
      | (None, m') => Some ([], m')
      end
  end.

(** The raw stream of [nextValue]: the index's own order from the
    position of the cursor up to the first null tuple. *)
Fixpoint nextValue_stream (fuel : nat) (index : TableIndex) (m : Mem)
    : option (list Row * Mem) :=
  match fuel with
  | O => None
  | S fuel' =>
      let (_, m') := store_nextValue index m in
      match tuple m' with
      | Some r =>
          match nextValue_stream fuel' index m' with
          | Some (rs, m'') => Some (r :: rs, m'')
          | None => None
          end
      | None => Some ([], m')
      end
  end.

(** The raw stream of [nextValueAtKey]: the duplicate chain the cursor
    stands on, up to the first null tuple. *)
Fixpoint nextValueAtKey_stream (fuel : nat) (index : TableIndex) (m : Mem)
    : option (list Row * Mem) :=
  match fuel with
  | O => None
  | S fuel' =>
      let (_, m') := store_nextValueAtKey index m in
      match tuple m' with
      | Some r =>
          match nextValueAtKey_stream fuel' index m' with
          | Some (rs, m'') => Some (r :: rs, m'')
          | None => None
          end
      | None => Some ([], m')
      end
  end.

(** What an iteration leaves for the program: the rows handed out and
    the cursor, without the slot and the log. *)
Definition rows_and_cursor (r : option (list Row * Mem))
    : option (list Row * IndexCursor) :=
  match r with
  | Some (rs, m) => Some (rs, cursor m)
  | None => None
  end.

End Walker.

Arguments Mem : clear implicits.
Arguments M : clear implicits.

(** ** The executor object *)

(** The members of [IndexScanExecutor] the model keeps.  The projector
    is [None] when it has no steps (rows pass through). *)
Record IndexScanExecutor (Row : Type) : Type := mkExecutor {
  m_numOfSearchkeys : Z;
  m_projector : option (Row -> Row);
  m_lookupType : IndexLookupType;
  m_sortDirection : SortDirectionType;
  m_suspendable : bool;
  m_tupleLimitForSuspendableFragments : Z
}.

(** The constructor.  Its initialiser list default-constructs
    [m_projector] and sets [m_suspendable(false)] and
    [m_tupleLimitForSuspendableFragments(1)]; the members it leaves
    untouched hold whatever they held, so they are arguments here. *)
Definition new_IndexScanExecutor (Row : Type) (numOfSearchkeys : Z)
    (lookupType : IndexLookupType) (sortDirection : SortDirectionType)
    : IndexScanExecutor Row :=
  {| m_numOfSearchkeys := numOfSearchkeys;
     m_projector := None;
     m_lookupType := lookupType;
     m_sortDirection := sortDirection;
     m_suspendable := false;
     m_tupleLimitForSuspendableFragments := 1 |}.

(** [virtual bool p_isSuspendable() { return m_suspendable; }] *)
Definition p_isSuspendable {Row : Type} (e : IndexScanExecutor Row) : bool :=
  m_suspendable e.

(** The plan compiler's two knobs ("a suspendability flag with its
    row-count threshold"), as updates of the executor. *)
Definition set_suspendable {Row : Type} (e : IndexScanExecutor Row)
    (flag : bool) (limit : Z) : IndexScanExecutor Row :=
  {| m_numOfSearchkeys := m_numOfSearchkeys e;
     m_projector := m_projector e;
     m_lookupType := m_lookupType e;
     m_sortDirection := m_sortDirection e;
     m_suspendable := flag;
     m_tupleLimitForSuspendableFragments := limit |}.

(** ** The scan around the walker *)

(** Modelled from the spec: [CountingPostfilter] is only forward-declared
    in the header.  Data model: "running counts of rows skipped (offset)
    and rows kept (limit)"; an inline limit is optional, and without one
    nothing is skipped and nothing stops the scan. *)
Record CountingPostfilter : Type := mkPostfilter {
  pf_offset : nat;
  pf_limit : option nat;
  pf_skipped : nat;
  pf_kept : nat
}.

(** Modelled from the spec: the postfilter of a new logical scan. *)
Definition new_postfilter (inlineLimit : option (nat * nat))
    : CountingPostfilter :=
  match inlineLimit with
  | Some (o, l) => mkPostfilter o (Some l) 0 0
  | None => mkPostfilter 0 None 0 0
  end.

(** Modelled from the spec: "stop entirely once limit threshold reached". *)
Definition isUnderLimit (pf : CountingPostfilter) : bool :=
  match pf_limit pf with
  | Some l => pf_kept pf <? l
  | None => true
  end.

(** Modelled from the spec: the postfilter stage on one candidate row,
    "discard while under offset threshold", otherwise keep and count. *)
Definition postfilter_eval (pf : CountingPostfilter)
    : bool * CountingPostfilter :=
  if pf_skipped pf <? pf_offset pf
  then (false, mkPostfilter (pf_offset pf) (pf_limit pf)
                 (S (pf_skipped pf)) (pf_kept pf))
  else (true, mkPostfilter (pf_offset pf) (pf_limit pf)
                (pf_skipped pf) (S (pf_kept pf))).

(** The rows an offset and an optional limit let through, as a window
    of the match sequence: what the postfilter is compared against. *)
Definition offset_limit_window {Row : Type} (o : nat) (l : option nat)
    (matches : list Row) : list Row :=
  match l with
  | Some l => firstn l (skipn o matches)
  | None => skipn o matches
  end.

(** Modelled from the spec: the completion status of one invocation. *)
Inductive ScanStatus : Type :=
| Exhausted
| LimitReached
| SuspendedMoreAvailable.

(** Modelled from the spec: "Terminal: Exhausted, LimitReached.
    Suspended is non-terminal". *)
Definition is_terminal (s : ScanStatus) : bool :=
  match s with
  | SuspendedMoreAvailable => false
  | _ => true
  end.

(** Modelled from the spec: "position cursor at/around key", the third
    primitive of the index, which [p_execute] calls once per logical
    scan.  [p_execute] itself is not in the header. *)
Class CursorPositioning (Value TableIndex IndexCursor : Type) : Type := {
  positionCursor :
    TableIndex -> IndexLookupType -> SortDirectionType -> list Value ->
    IndexCursor
}.

Section Scan.

Context {Row TableIndex IndexCursor Value Params : Type}.
Context {ops : TableIndexOps Row TableIndex IndexCursor}.
Context {pos : CursorPositioning Value TableIndex IndexCursor}.

(** Modelled from the spec: what the plan node contributes, the bound
    expressions (each may fail to evaluate) and the optional inline
    limit as (offset, limit). *)
Record IndexScanPlanNode : Type := mkPlanNode {
  searchKeyExpressions : list (Params -> option Value);
  inlineLimit : option (nat * nat)
}.

(** Modelled from the spec: SearchKeyBuilder, "evaluate each expression
    in order into its corresponding key slot", failing when one fails. *)
Fixpoint buildSearchKey (exprs : list (Params -> option Value))
    (params : Params) : option (list Value) :=
  match exprs with
  | [] => Some []
  | e :: exprs' =>
      match e params with
      | Some v =>
          match buildSearchKey exprs' params with
          | Some vs => Some (v :: vs)
          | None => None
          end
      | None => None
      end
  end.

(** Modelled from the spec: what one logical scan keeps between
    invocations, the key fixed at its start, the cursor cells and the
    postfilter counts. *)
Record ScanState : Type := mkScanState {
  scan_key : list Value;
  scan_mem : Mem Row IndexCursor;
  scan_postfilter : CountingPostfilter
}.

(** Modelled from the spec: the per-invocation result, the rows put
    out, the completion status and the state left for a resumption. *)
Record ScanResult : Type := mkScanResult {
  rows : list Row;
  status : ScanStatus;
  state : ScanState
}.

(** Modelled from the spec: an invocation ends with a result or with
    the expression evaluation error of key construction, which is
    propagated; [OutOfFuel] only says the fuel given was too little. *)
Inductive Outcome : Type :=
| OutOfFuel
| EvaluationError
| Done (r : ScanResult).

(** Rows already emitted, put in front of a result. *)
Definition add_rows (out : list Row) (r : ScanResult) : ScanResult :=
  mkScanResult (out ++ rows r) (status r) (state r).

(** Modelled from the spec: the projection stage. *)
Definition project (e : IndexScanExecutor Row) (r : Row) : Row :=
  match m_projector e with
  | Some f => f r
  | None => r
  end.

(** Modelled from the spec: the loop of one invocation.  The
    postfilter's limit ends the scan.  Otherwise the walker is asked
    for a row; without one the scan is exhausted.  "Before emitting
    each row to the pipeline, check the counter against the configured
    limit": when it is reached and the executor is suspendable the
    invocation stops with the cells as they were before that step, so
    the cursor stands "exactly at the next unprocessed row".  Otherwise
    the row goes through projection and postfilter.  [counter] counts
    the rows of this invocation. *)
Fixpoint scan_loop (fuel : nat) (e : IndexScanExecutor Row)
    (index : TableIndex) (counter : nat) (st : ScanState)
    (out : list Row) : option ScanResult :=
  match fuel with
  | O => None
  | S fuel' =>
      if negb (isUnderLimit (scan_postfilter st)) then
        Some (mkScanResult out LimitReached st)
      else
        match next_row (m_lookupType e) index
                (Z.of_nat (length (scan_key st))) (scan_mem st) with
        | (Some r, m') =>
            if m_suspendable e
               && (m_tupleLimitForSuspendableFragments e
                   <=? Z.of_nat counter)%Z
            then Some (mkScanResult out SuspendedMoreAvailable st)
            else
              let (keep, pf') := postfilter_eval (scan_postfilter st) in
              scan_loop fuel' e index (S counter)
                (mkScanState (scan_key st) m' pf')
                (if keep then out ++ [project e r] else out)
        | (None, m') =>
            Some (mkScanResult out Exhausted
                    (mkScanState (scan_key st) m' (scan_postfilter st)))
        end
  end.

(** Modelled from the spec: the start of a logical scan, key built
    once, cursor positioned, postfilter counts at zero. *)
Definition start_scan (e : IndexScanExecutor Row)
    (node : IndexScanPlanNode) (index : TableIndex) (params : Params)
    : option ScanState :=
  match buildSearchKey (searchKeyExpressions node) params with
  | Some key =>
      Some (mkScanState key
              (mkMem None
                 (positionCursor index (m_lookupType e)
                    (m_sortDirection e) key) [])
              (new_postfilter (inlineLimit node)))
  | None => None
  end.

(** Modelled from the spec: one invocation of [p_execute].  With a
    suspended state to resume it goes straight to the loop; the
    parameters are not looked at again. *)
Definition p_execute (fuel : nat) (e : IndexScanExecutor Row)
    (node : IndexScanPlanNode) (index : TableIndex) (params : Params)
    (resume : option ScanState) : Outcome :=
  let begin :=
    match resume with
    | Some st => Some st
    | None => start_scan e node index params
    end in
  match begin with
  | None => EvaluationError
  | Some st =>
      match scan_loop fuel e index 0 st [] with
      | Some r => Done r
      | None => OutOfFuel
      end
  end.

(** Modelled from the spec: the invocations that follow a suspension,
    each with its own threshold and whatever parameters the engine
    passes; rows are concatenated, and a terminal status ends the
    logical scan. *)
Fixpoint resume_scan (fuel : nat) (e : IndexScanExecutor Row)
    (node : IndexScanPlanNode) (index : TableIndex)
    (invocations : list (Z * Params)) (r : ScanResult) : Outcome :=
  match invocations with
  | [] => Done r
  | (limit, params) :: invocations' =>
      if is_terminal (status r) then Done r
      else
        match p_execute fuel (set_suspendable e true limit) node index
                params (Some (state r)) with
        | Done r' =>
            resume_scan fuel e node index invocations'
              (mkScanResult (rows r ++ rows r') (status r') (state r'))
        | other => other
        end
  end.

(** Modelled from the spec: a logical scan run as a first invocation
    and a sequence of resumptions. *)
Definition suspended_scan (fuel : nat) (e : IndexScanExecutor Row)
    (node : IndexScanPlanNode) (index : TableIndex)
    (first : Z * Params) (invocations : list (Z * Params)) : Outcome :=
  match p_execute fuel (set_suspendable e true (fst first)) node index
          (snd first) None with
  | Done r => resume_scan fuel e node index invocations r
  | other => other
  end.

(** Modelled from the spec: the same logical scan in one invocation of
    an executor that is not suspendable. *)
Definition full_scan (fuel : nat) (e : IndexScanExecutor Row)
    (node : IndexScanPlanNode) (index : TableIndex) (params : Params)
    : Outcome :=
  p_execute fuel
    (set_suspendable e false (m_tupleLimitForSuspendableFragments e))
    node index params None.

End Scan.

Arguments IndexScanPlanNode : clear implicits.
Arguments ScanState : clear implicits.
Arguments ScanResult : clear implicits.
Arguments Outcome : clear implicits.

(** ** A model index *)

(** Modelled from the spec: the index and its cursor are collaborators
    outside the header ("position cursor at/around key", "advance to next
    duplicate at current key", "advance to next value in direction").
    The model is an index over one integer column [A]: its entries in
    ascending key order, a cursor that is a position in that order, a
    direction, and the key of the duplicate chain it was placed on. *)
Module ModelIndex.

Record Entry : Type := mkEntry {
  A : Z;
  rowid : nat
}.

Definition Index : Type := list Entry.

Record Cursor : Type := mkCursor {
  m_pos : Z;
  m_forward : bool;
  m_key : option Z
}.

Definition entry_at (index : Index) (p : Z) : option Entry :=
  if (p <? 0)%Z then None else nth_error index (Z.to_nat p).

Definition advance (c : Cursor) : Cursor :=
  mkCursor (if m_forward c then m_pos c + 1 else m_pos c - 1)%Z
           (m_forward c) (m_key c).

(** "advance to next duplicate at current key" *)
Definition nextValueAtKey (index : Index) (c : Cursor)
    : TableTuple Entry * Cursor :=
  match entry_at index (m_pos c), m_key c with
  | Some e, Some k =>
      if (A e =? k)%Z
      then (Some e, mkCursor (m_pos c + 1)%Z (m_forward c) (m_key c))
      else (None, c)
  | _, _ => (None, c)
  end.

(** "advance to next value in direction" *)
Definition nextValue (index : Index) (c : Cursor)
    : TableTuple Entry * Cursor :=
  match entry_at index (m_pos c) with
  | Some e => (Some e, advance c)
  | None => (None, c)
  end.

(** The number of leading entries that fail [p]: the position of the
    first entry that satisfies it, or the length when none does. *)
Fixpoint first_index (p : Entry -> bool) (index : Index) : nat :=
  match index with
  | [] => O
  | e :: index' => if p e then O else S (first_index p index')
  end.

(** The position of the last entry that satisfies [p], or -1. *)
Definition last_index (p : Entry -> bool) (index : Index) : Z :=
  (Z.of_nat (length index) - 1
   - Z.of_nat (first_index p (rev index)))%Z.

Definition moveToKey (k : Z) (index : Index) : Cursor :=
  mkCursor (Z.of_nat (first_index (fun e => (A e =? k)%Z) index))
           true (Some k).

Definition moveToGreaterThanKey (k : Z) (index : Index) : Cursor :=
  mkCursor (Z.of_nat (first_index (fun e => (k <? A e)%Z) index))
           true None.

Definition moveToKeyOrGreater (k : Z) (index : Index) : Cursor :=
  mkCursor (Z.of_nat (first_index (fun e => (k <=? A e)%Z) index))
           true None.

Definition moveToLessThanKey (k : Z) (index : Index) : Cursor :=
  mkCursor (last_index (fun e => (A e <? k)%Z) index) false None.

Definition moveToKeyOrLess (k : Z) (index : Index) : Cursor :=
  mkCursor (last_index (fun e => (A e <=? k)%Z) index) false None.

Definition moveToEnd (begin : bool) (index : Index) : Cursor :=
  if begin then mkCursor 0 true None
  else mkCursor (Z.of_nat (length index) - 1) false None.

(** "position cursor at/around key": with no active key the cursor goes
    to the end the sort direction starts from; otherwise the lookup
    type picks the place around the (single-column) key. *)
Definition position (index : Index) (lookupType : IndexLookupType)
    (sortDirection : SortDirectionType) (key : list Z) : Cursor :=
  match key with
  | [] =>
      moveToEnd
        (match sortDirection with
         | SORT_DIRECTION_TYPE_DESC => false
         | SORT_DIRECTION_TYPE_ASC => true
         end) index
  | k :: _ =>
      match lookupType with
      | INDEX_LOOKUP_TYPE_EQ | INDEX_LOOKUP_TYPE_GEO_CONTAINS =>
          moveToKey k index
      | INDEX_LOOKUP_TYPE_GT => moveToGreaterThanKey k index
      | INDEX_LOOKUP_TYPE_GTE | INDEX_LOOKUP_TYPE_RANGE =>
          moveToKeyOrGreater k index
      | INDEX_LOOKUP_TYPE_LT => moveToLessThanKey k index
      | INDEX_LOOKUP_TYPE_LTE => moveToKeyOrLess k index
      end
  end.

#[global] Instance model_ops : TableIndexOps Entry Index Cursor :=
  Build_TableIndexOps nextValueAtKey nextValue.

#[global] Instance model_positioning : CursorPositioning Z Index Cursor :=
  Build_CursorPositioning position.

(** The index of the examples: column [A] holding 1, 1, 2, 3. *)
Definition sample : Index :=
  [mkEntry 1 0; mkEntry 1 1; mkEntry 2 2; mkEntry 3 3].

(** The cells before the first step: a null tuple, the positioned
    cursor, no call made yet. *)
Definition fresh (c : Cursor) : Mem Entry Cursor := mkMem None c [].

(** A bound expression that reads the parameter vector by position
    and fails on a missing parameter. *)
Definition param_expr (i : nat) : list Z -> option Z :=
  fun params => nth_error params i.

(** A plan with one bound expression, the first parameter. *)
Definition one_key_plan (inlineLimit : option (nat * nat))
    : IndexScanPlanNode Z (list Z) :=
  mkPlanNode [param_expr 0] inlineLimit.

(** An executor as constructed, for the given lookup type, ascending. *)
Definition executor (lookupType : IndexLookupType)
    : IndexScanExecutor Entry :=
  new_IndexScanExecutor Entry 1 lookupType SORT_DIRECTION_TYPE_ASC.

(** What a scan of the whole sample index from key 1 on ends with: all
    four rows, the cursor past the last entry after five [nextValue]
    calls, four rows kept by the postfilter. *)
Definition sample_result : ScanResult Entry Cursor Z :=
  mkScanResult sample Exhausted
    (mkScanState [1%Z]
       (mkMem None (mkCursor 4 true None) (repeat CallNextValue 5))
       (mkPostfilter 0 None 0 4)).

End ModelIndex.

Unset Implicit Arguments.

(** * Properties of the walker *)

Section WalkerFacts.

Context {Row TableIndex IndexCursor : Type}.
Context {ops : TableIndexOps Row TableIndex IndexCursor}.

Implicit Types (lookupType : IndexLookupType) (index : TableIndex)
  (m : Mem Row IndexCursor).

Lemma is_eq_or_geo_true lookupType :
  is_eq_or_geo lookupType = true <->
  lookupType = INDEX_LOOKUP_TYPE_EQ
  \/ lookupType = INDEX_LOOKUP_TYPE_GEO_CONTAINS.
Proof.
  split.
  - destruct lookupType; cbn; intros H; try discriminate H; auto.
  - intros [-> | ->]; reflexivity.
Qed.

Lemma is_eq_or_geo_false lookupType :
  is_eq_or_geo lookupType = false <->
  lookupType <> INDEX_LOOKUP_TYPE_EQ
  /\ lookupType <> INDEX_LOOKUP_TYPE_GEO_CONTAINS.
Proof.
  split.
  - intros H; split; intros ->; discriminate H.
  - intros [H1 H2]; destruct lookupType; cbn; congruence.
Qed.

Lemma takes_second_branch_eq_or_geo lookupType n :
  is_eq_or_geo lookupType = true ->
  takes_second_branch lookupType n = (n =? 0)%Z.
Proof.
  intros H; apply is_eq_or_geo_true in H.
  destruct H as [-> | ->]; reflexivity.
Qed.

Lemma takes_second_branch_other lookupType n :
  is_eq_or_geo lookupType = false ->
  takes_second_branch lookupType n = true.
Proof.
  intros H; destruct lookupType; cbn in H; try discriminate H; reflexivity.
Qed.

(** The tail of the helper, by the guard of its [if]. *)
Lemma getNextTuple_tail_unfold lookupType index n m :
  getNextTuple_tail lookupType index n m =
  if takes_second_branch lookupType n
  then (negb (isNullTuple (fst (nextValue index (cursor m)))),
        mkMem (fst (nextValue index (cursor m)))
              (snd (nextValue index (cursor m)))
              (calls m ++ [CallNextValue]))
  else (negb (isNullTuple (tuple m)), m).
Proof.
  unfold getNextTuple_tail, takes_second_branch, bind, tuple_isNullTuple,
    ret, store_nextValue.
  destruct (_ || _); [ destruct (nextValue index (cursor m)) | ];
    reflexivity.
Qed.

(** A step on a lookup type that is neither equality nor geo-contains. *)
Lemma getNextTuple_other lookupType index n m :
  is_eq_or_geo lookupType = false ->
  getNextTuple lookupType index n m =
  (negb (isNullTuple (fst (nextValue index (cursor m)))),
   mkMem (fst (nextValue index (cursor m)))
         (snd (nextValue index (cursor m)))
         (calls m ++ [CallNextValue])).
Proof.
  intros H. unfold getNextTuple. rewrite H, getNextTuple_tail_unfold.
  now rewrite takes_second_branch_other.
Qed.

(** A step on equality or geo-contains whose key still has a row. *)
Lemma getNextTuple_at_key lookupType index n m r c :
  is_eq_or_geo lookupType = true ->
  nextValueAtKey index (cursor m) = (Some r, c) ->
  getNextTuple lookupType index n m =
  (true, mkMem (Some r) c (calls m ++ [CallNextValueAtKey])).
Proof.
  intros H E. unfold getNextTuple, bind, store_nextValueAtKey,
    tuple_isNullTuple, ret.
  now rewrite H, E.
Qed.

(** A step on equality or geo-contains whose key chain has run out. *)
Lemma getNextTuple_chain_end lookupType index n m c :
  is_eq_or_geo lookupType = true ->
  nextValueAtKey index (cursor m) = (None, c) ->
  getNextTuple lookupType index n m =
  if (n =? 0)%Z
  then (negb (isNullTuple (fst (nextValue index c))),
        mkMem (fst (nextValue index c)) (snd (nextValue index c))
              (calls m ++ [CallNextValueAtKey; CallNextValue]))
  else (false, mkMem None c (calls m ++ [CallNextValueAtKey])).
Proof.
  intros H E. unfold getNextTuple, bind, store_nextValueAtKey,
    tuple_isNullTuple, ret.
  rewrite H, E. cbn [tuple isNullTuple negb].
  rewrite getNextTuple_tail_unfold, takes_second_branch_eq_or_geo by exact H.
  destruct (n =? 0)%Z; cbn [cursor calls tuple isNullTuple negb].
  - now rewrite <- app_assoc.
  - reflexivity.
Qed.

Lemma calls_since_app m t c l :
  calls_since m (mkMem t c (calls m ++ l)) = l.
Proof.
  unfold calls_since. cbn [calls].
  rewrite skipn_app, skipn_all, Nat.sub_diag. reflexivity.
Qed.

(** What a step leaves behind, in all cases at once. *)
Lemma getNextTuple_cases lookupType index n m :
  exists t c l,
    getNextTuple lookupType index n m
    = (negb (isNullTuple t), mkMem t c (calls m ++ l))
    /\ (l = [CallNextValueAtKey] \/ l = [CallNextValue]
        \/ l = [CallNextValueAtKey; CallNextValue]).
Proof.
  destruct (is_eq_or_geo lookupType) eqn:H.
  - destruct (nextValueAtKey index (cursor m)) as [[r|] c] eqn:E.
    + exists (Some r), c, [CallNextValueAtKey].
      rewrite (@getNextTuple_at_key lookupType index n m r c H E). auto.
    + rewrite (@getNextTuple_chain_end lookupType index n m c H E).
      destruct (n =? 0)%Z.
      * exists (fst (nextValue index c)), (snd (nextValue index c)),
          [CallNextValueAtKey; CallNextValue]; auto.
      * exists None, c, [CallNextValueAtKey]; auto.
  - rewrite (@getNextTuple_other lookupType index n m H).
    exists (fst (nextValue index (cursor m))),
      (snd (nextValue index (cursor m))), [CallNextValue]; auto.
Qed.

Lemma store_nextValue_unfold index m :
  store_nextValue index m =
  (tt, mkMem (fst (nextValue index (cursor m)))
             (snd (nextValue index (cursor m)))
             (calls m ++ [CallNextValue])).
Proof.
  unfold store_nextValue. now destruct (nextValue index (cursor m)).
Qed.

Lemma nextValue_stream_step fuel index m :
  nextValue_stream (S fuel) index m =
  match fst (nextValue index (cursor m)) with
  | Some r =>
      match nextValue_stream fuel index
              (mkMem (fst (nextValue index (cursor m)))
                     (snd (nextValue index (cursor m)))
                     (calls m ++ [CallNextValue])) with
      | Some (rs, m'') => Some (r :: rs, m'')
      | None => None
      end
  | None =>
      Some ([], mkMem None (snd (nextValue index (cursor m)))
                  (calls m ++ [CallNextValue]))
  end.
Proof.
  cbn [nextValue_stream]. rewrite store_nextValue_unfold. cbn [tuple].
  now destruct (fst (nextValue index (cursor m))).
Qed.

(** With a lookup type other than equality and geo-contains the walker
    is the [nextValue] stream, whatever the number of active keys. *)
Lemma walk_other_is_stream lookupType index n :
  is_eq_or_geo lookupType = false ->
  forall fuel m,
    walk fuel lookupType index n m = nextValue_stream fuel index m.
Proof.
  intros H fuel; induction fuel as [|fuel IH]; intros m; [reflexivity|].
  cbn [walk nextValue_stream]. unfold next_row.
  rewrite (@getNextTuple_other lookupType index n m H),
    store_nextValue_unfold.
  cbn [tuple].
  destruct (fst (nextValue index (cursor m))) as [r|];
    cbn [isNullTuple negb]; [ now rewrite IH | reflexivity ].
Qed.

(** C1: with the lookup type equality or geo-contains, a step of
    [getNextTuple] first asks the index for the next value at key;
    when that tuple is not null the step returns [true] at once with
    that tuple in the output slot, the cursor as [nextValueAtKey] left
    it, and no [nextValue] call made in the step. *)
Theorem getNextTuple_eq_geo_next_value_at_key_first
    lookupType index n m :
  lookupType = INDEX_LOOKUP_TYPE_EQ
  \/ lookupType = INDEX_LOOKUP_TYPE_GEO_CONTAINS ->
  (exists rest,
      calls_since m (snd (getNextTuple lookupType index n m))
      = CallNextValueAtKey :: rest)
  /\ (forall r c,
        nextValueAtKey index (cursor m) = (Some r, c) ->
        getNextTuple lookupType index n m
        = (true, mkMem (Some r) c (calls m ++ [CallNextValueAtKey]))
        /\ ~ In CallNextValue
               (calls_since m (snd (getNextTuple lookupType index n m)))).
Proof.
  intros H; apply is_eq_or_geo_true in H. split.
  - destruct (nextValueAtKey index (cursor m)) as [[r|] c] eqn:E.
    + rewrite (@getNextTuple_at_key lookupType index n m r c H E).
      cbn [snd]. rewrite calls_since_app. now exists [].
    + rewrite (@getNextTuple_chain_end lookupType index n m c H E).
      destruct (n =? 0)%Z; cbn [snd]; rewrite calls_since_app;
        eexists; reflexivity.
  - intros r c E.
    rewrite (@getNextTuple_at_key lookupType index n m r c H E).
    split; [reflexivity|].
    cbn [snd]. rewrite calls_since_app.
    intros [D | []]; discriminate D.
Qed.

(** C2: with a lookup type that is neither equality nor geo-contains,
    and any number of active keys, zero included, a step of
    [getNextTuple] makes exactly one call, [nextValue], stores its
    tuple and returns [true] exactly when that tuple is not null; so
    iterating the helper, in particular with zero active keys, hands
    out the [nextValue] stream of the index from the cursor on, that
    is the index's own order. *)
Theorem getNextTuple_other_lookup_is_next_value
    lookupType index n m :
  lookupType <> INDEX_LOOKUP_TYPE_EQ ->
  lookupType <> INDEX_LOOKUP_TYPE_GEO_CONTAINS ->
  getNextTuple lookupType index n m
  = (negb (isNullTuple (fst (nextValue index (cursor m)))),
     mkMem (fst (nextValue index (cursor m)))
           (snd (nextValue index (cursor m)))
           (calls m ++ [CallNextValue]))
  /\ (fst (getNextTuple lookupType index n m) = true
      <-> fst (nextValue index (cursor m)) <> None)
  /\ (forall fuel,
        walk fuel lookupType index 0 m = nextValue_stream fuel index m)
  /\ (forall fuel,
        walk fuel lookupType index n m = nextValue_stream fuel index m).
Proof.
  intros H1 H2.
  assert (H : is_eq_or_geo lookupType = false)
    by (apply is_eq_or_geo_false; auto).
  rewrite (@getNextTuple_other lookupType index n m H). cbn [fst].
  repeat split.
  - destruct (fst (nextValue index (cursor m))); cbn; congruence.
  - destruct (fst (nextValue index (cursor m))); cbn; congruence.
  - intros fuel. now apply walk_other_is_stream.
  - intros fuel. now apply walk_other_is_stream.
Qed.

(** C3: with the lookup type equality or geo-contains and a null tuple
    from [nextValueAtKey], the step calls [nextValue] if and only if
    the number of active keys is zero; with a nonzero number it makes
    no further call and returns [false] with the null tuple in the
    slot. *)
Theorem getNextTuple_chain_exhausted lookupType index n m c :
  lookupType = INDEX_LOOKUP_TYPE_EQ
  \/ lookupType = INDEX_LOOKUP_TYPE_GEO_CONTAINS ->
  nextValueAtKey index (cursor m) = (None, c) ->
  (In CallNextValue
      (calls_since m (snd (getNextTuple lookupType index n m)))
   <-> n = 0%Z)
  /\ (n = 0%Z ->
      getNextTuple lookupType index n m
      = (negb (isNullTuple (fst (nextValue index c))),
         mkMem (fst (nextValue index c)) (snd (nextValue index c))
               (calls m ++ [CallNextValueAtKey; CallNextValue])))
  /\ (n <> 0%Z ->
      getNextTuple lookupType index n m
      = (false, mkMem None c (calls m ++ [CallNextValueAtKey]))).
Proof.
  intros H E; apply is_eq_or_geo_true in H.
  rewrite (@getNextTuple_chain_end lookupType index n m c H E).
  destruct (Z.eqb_spec n 0) as [-> | Hn]; cbn [snd];
    rewrite calls_since_app.
  - repeat split; cbn; auto; intros; congruence.
  - repeat split.
    + intros [D | []]; discriminate D.
    + intros ->; congruence.
    + intros ->; congruence.
Qed.

(** C4: when no call the step makes yields a row (the tuple of
    [nextValueAtKey] is null when the first branch runs, the tuple of
    [nextValue] is null when the second runs), [getNextTuple] returns
    [false] as an ordinary result, with the null tuple in the slot,
    having called each index method at most once. *)
Theorem getNextTuple_null_is_exhaustion lookupType index n m :
  (is_eq_or_geo lookupType = true ->
   fst (nextValueAtKey index (cursor m)) = None) ->
  (takes_second_branch lookupType n = true ->
   fst (nextValue index (cursor_at_second_branch lookupType index m))
   = None) ->
  exists m',
    getNextTuple lookupType index n m = (false, m')
    /\ tuple m' = None
    /\ NoDup (calls_since m m')
    /\ (length (calls_since m m') <= 2)%nat.
Proof.
  intros Hfirst Hsecond.
  unfold cursor_at_second_branch in Hsecond.
  destruct (is_eq_or_geo lookupType) eqn:H.
  - specialize (Hfirst eq_refl).
    destruct (nextValueAtKey index (cursor m)) as [t c] eqn:E.
    cbn [fst snd] in *; subst t.
    rewrite (@getNextTuple_chain_end lookupType index n m c H E).
    rewrite takes_second_branch_eq_or_geo in Hsecond by exact H.
    destruct (n =? 0)%Z.
    + rewrite (Hsecond eq_refl). eexists; split; [reflexivity|].
      rewrite calls_since_app. cbn. repeat split; auto.
      repeat constructor; cbn; intuition discriminate.
    + eexists; split; [reflexivity|].
      rewrite calls_since_app. cbn. repeat split; auto.
      repeat constructor; cbn; intuition.
  - rewrite (@getNextTuple_other lookupType index n m H).
    rewrite (Hsecond (takes_second_branch_other lookupType n H)).
    eexists; split; [reflexivity|].
    rewrite calls_since_app. cbn. repeat split; auto.
    repeat constructor; cbn; intuition.
Qed.

(** C9: [getNextTuple] with the geo-contains lookup type is
    [getNextTuple] with the equality lookup type: the same result, the
    same tuple in the slot, the same cursor and the same calls on the
    index in the same order. *)
Theorem getNextTuple_geo_contains_as_eq index n m :
  getNextTuple INDEX_LOOKUP_TYPE_GEO_CONTAINS index n m
  = getNextTuple INDEX_LOOKUP_TYPE_EQ index n m.
Proof.
  unfold getNextTuple, getNextTuple_tail. reflexivity.
Qed.

(** C10: on every path the result of [getNextTuple] is [true] exactly
    when the tuple it leaves in the output slot is not null. *)
Theorem getNextTuple_true_iff_tuple_not_null lookupType index n m :
  fst (getNextTuple lookupType index n m) = true
  <-> isNullTuple (tuple (snd (getNextTuple lookupType index n m)))
      = false.
Proof.
  destruct (getNextTuple_cases lookupType index n m)
    as (t & c & l & -> & _).
  cbn [fst snd tuple]. destruct t; cbn; intuition congruence.
Qed.

End WalkerFacts.

(** * The walker in a loop *)

Section WalkerLoops.

Context {Row TableIndex IndexCursor : Type}.
Context {ops : TableIndexOps Row TableIndex IndexCursor}.

Implicit Types (lookupType : IndexLookupType) (index : TableIndex)
  (m : Mem Row IndexCursor).

Lemma store_nextValueAtKey_unfold index m :
  store_nextValueAtKey index m =
  (tt, mkMem (fst (nextValueAtKey index (cursor m)))
             (snd (nextValueAtKey index (cursor m)))
             (calls m ++ [CallNextValueAtKey])).
Proof.
  unfold store_nextValueAtKey.
  now destruct (nextValueAtKey index (cursor m)).
Qed.

(** A step, with the case of two calls pinned to its cause. *)
Lemma getNextTuple_calls lookupType index n m :
  exists t c l,
    getNextTuple lookupType index n m
    = (negb (isNullTuple t), mkMem t c (calls m ++ l))
    /\ (l = [CallNextValueAtKey] \/ l = [CallNextValue]
        \/ (l = [CallNextValueAtKey; CallNextValue]
            /\ is_eq_or_geo lookupType = true /\ n = 0%Z)).
Proof.
  destruct (is_eq_or_geo lookupType) eqn:H.
  - destruct (nextValueAtKey index (cursor m)) as [[r|] c] eqn:E.
    + exists (Some r), c, [CallNextValueAtKey].
      rewrite (getNextTuple_at_key lookupType index n m r c H E). auto.
    + rewrite (getNextTuple_chain_end lookupType index n m c H E).
      destruct (Z.eqb_spec n 0) as [Hn | Hn].
      * exists (fst (nextValue index c)), (snd (nextValue index c)),
          [CallNextValueAtKey; CallNextValue].
        split; [reflexivity|]. right; right. auto.
      * exists None, c, [CallNextValueAtKey]; auto.
  - rewrite (getNextTuple_other lookupType index n m H).
    exists (fst (nextValue index (cursor m))),
      (snd (nextValue index (cursor m))), [CallNextValue]; auto.
Qed.

(** A step reads nothing but the cursor. *)
Lemma getNextTuple_reads_cursor_only lookupType index n m1 m2 :
  cursor m1 = cursor m2 ->
  exists b t c l,
    getNextTuple lookupType index n m1 = (b, mkMem t c (calls m1 ++ l))
    /\ getNextTuple lookupType index n m2 = (b, mkMem t c (calls m2 ++ l))
    /\ b = negb (isNullTuple t).
Proof.
  intros Hc.
  destruct (is_eq_or_geo lookupType) eqn:H.
  - destruct (nextValueAtKey index (cursor m1)) as [[r|] c] eqn:E.
    + pose proof E as E2. rewrite Hc in E2.
      rewrite (getNextTuple_at_key lookupType index n m1 r c H E),
        (getNextTuple_at_key lookupType index n m2 r c H E2).
      exists true, (Some r), c, [CallNextValueAtKey]. auto.
    + pose proof E as E2. rewrite Hc in E2.
      rewrite (getNextTuple_chain_end lookupType index n m1 c H E),
        (getNextTuple_chain_end lookupType index n m2 c H E2).
      destruct (n =? 0)%Z.
      * exists (negb (isNullTuple (fst (nextValue index c)))),
          (fst (nextValue index c)), (snd (nextValue index c)),
          [CallNextValueAtKey; CallNextValue]. auto.
      * exists false, None, c, [CallNextValueAtKey]. auto.
  - rewrite (getNextTuple_other lookupType index n m1 H),
      (getNextTuple_other lookupType index n m2 H), Hc.
    exists (negb (isNullTuple (fst (nextValue index (cursor m2))))),
      (fst (nextValue index (cursor m2))),
      (snd (nextValue index (cursor m2))), [CallNextValue]. auto.
Qed.

Lemma nextValueAtKey_stream_calls index :
  forall fuel m rs m',
    nextValueAtKey_stream fuel index m = Some (rs, m') ->
    calls m' = calls m ++ repeat CallNextValueAtKey (S (length rs)).
Proof.
  induction fuel as [|fuel IH]; intros m rs m' H; [discriminate H|].
  cbn [nextValueAtKey_stream] in H.
  rewrite store_nextValueAtKey_unfold in H. cbn [tuple] in H.
  destruct (fst (nextValueAtKey index (cursor m))) as [r|].
  - destruct (nextValueAtKey_stream fuel index _) as [[rs' m'']|] eqn:E;
      [ | discriminate H ].
    injection H as <- <-. apply IH in E. cbn [calls] in E.
    rewrite E, <- app_assoc. reflexivity.
  - injection H as <- <-. reflexivity.
Qed.

(** X1: an equality or geo-contains lookup with a nonzero number of
    active keys walks the duplicate chain and nothing else: iterating
    [getNextTuple] is iterating [nextValueAtKey] up to its first null
    tuple, and over the whole loop the index is asked [nextValueAtKey]
    once per row and once more, and never [nextValue]. *)
Theorem walk_equality_is_duplicate_chain lookupType index n :
  lookupType = INDEX_LOOKUP_TYPE_EQ
  \/ lookupType = INDEX_LOOKUP_TYPE_GEO_CONTAINS ->
  n <> 0%Z ->
  forall fuel m,
    walk fuel lookupType index n m = nextValueAtKey_stream fuel index m
    /\ forall rs m',
        walk fuel lookupType index n m = Some (rs, m') ->
        calls m' = calls m ++ repeat CallNextValueAtKey (S (length rs)).
Proof.
  intros H Hn. apply is_eq_or_geo_true in H.
  assert (Hstream : forall fuel m,
             walk fuel lookupType index n m
             = nextValueAtKey_stream fuel index m).
  { induction fuel as [|fuel IH]; intros m; [reflexivity|].
    cbn [walk nextValueAtKey_stream]. unfold next_row.
    rewrite store_nextValueAtKey_unfold. cbn [tuple].
    destruct (nextValueAtKey index (cursor m)) as [[r|] c] eqn:E.
    - rewrite (getNextTuple_at_key lookupType index n m r c H E).
      cbn [fst snd tuple]. now rewrite IH.
    - rewrite (getNextTuple_chain_end lookupType index n m c H E).
      destruct (Z.eqb_spec n 0) as [H0 | _]; [contradiction|].
      reflexivity. }
  intros fuel m. split; [apply Hstream|].
  intros rs m' Hw. rewrite Hstream in Hw.
  exact (nextValueAtKey_stream_calls index fuel m rs m' Hw).
Qed.

(** X2: an equality or geo-contains lookup with zero active keys falls
    back to the ordered scan.  On cursors for which [nextValueAtKey]
    answers with the null tuple and leaves the cursor alone (a set of
    cursors that [nextValue] does not leave), iterating [getNextTuple]
    hands out the rows of the [nextValue] stream and ends on the same
    cursor. *)
Theorem walk_equality_no_key_is_stream
    (P : IndexCursor -> Prop) lookupType index :
  lookupType = INDEX_LOOKUP_TYPE_EQ
  \/ lookupType = INDEX_LOOKUP_TYPE_GEO_CONTAINS ->
  (forall c, P c -> nextValueAtKey index c = (None, c)) ->
  (forall c, P c -> P (snd (nextValue index c))) ->
  forall fuel m,
    P (cursor m) ->
    rows_and_cursor (walk fuel lookupType index 0 m)
    = rows_and_cursor (nextValue_stream fuel index m).
Proof.
  intros H Hnull Hkeep fuel m HP. apply is_eq_or_geo_true in H.
  enough (Hgen : forall fuel m1 m2,
             cursor m1 = cursor m2 -> P (cursor m1) ->
             rows_and_cursor (walk fuel lookupType index 0 m1)
             = rows_and_cursor (nextValue_stream fuel index m2))
    by (apply Hgen; auto).
  clear fuel m HP.
  induction fuel as [|fuel IH]; intros m1 m2 Hc HP; [reflexivity|].
  cbn [walk]. unfold next_row.
  rewrite (getNextTuple_chain_end lookupType index 0 m1 (cursor m1) H
             (Hnull _ HP)).
  rewrite nextValue_stream_step, <- Hc. cbn [Z.eqb tuple].
  destruct (fst (nextValue index (cursor m1))) as [r|] eqn:Er;
    cbn [isNullTuple negb]; [ | reflexivity ].
  specialize (IH (mkMem (Some r) (snd (nextValue index (cursor m1)))
                    (calls m1 ++ [CallNextValueAtKey; CallNextValue]))
                 (mkMem (Some r) (snd (nextValue index (cursor m1)))
                    (calls m2 ++ [CallNextValue]))
                 eq_refl (Hkeep _ HP)).
  destruct (walk fuel lookupType index 0 _) as [[rs1 e1]|];
    destruct (nextValue_stream fuel index _) as [[rs2 e2]|];
    cbn [rows_and_cursor] in IH |- *; congruence.
Qed.

(** X3: the cursor is the whole iteration state.  A step reads neither
    the previous content of the output slot nor anything else: from two
    states with the same cursor it returns the same result, leaves the
    same tuple and the same cursor and makes the same calls; hence a
    loop entered again with the cursor alone hands out the same rows
    and stops on the same cursor. *)
Theorem getNextTuple_state_is_the_cursor lookupType index n m1 m2 :
  cursor m1 = cursor m2 ->
  (fst (getNextTuple lookupType index n m1)
   = fst (getNextTuple lookupType index n m2)
   /\ tuple (snd (getNextTuple lookupType index n m1))
      = tuple (snd (getNextTuple lookupType index n m2))
   /\ cursor (snd (getNextTuple lookupType index n m1))
      = cursor (snd (getNextTuple lookupType index n m2))
   /\ calls_since m1 (snd (getNextTuple lookupType index n m1))
      = calls_since m2 (snd (getNextTuple lookupType index n m2)))
  /\ forall fuel,
      rows_and_cursor (walk fuel lookupType index n m1)
      = rows_and_cursor (walk fuel lookupType index n m2).
Proof.
  intros Hc. split.
  - destruct (getNextTuple_reads_cursor_only lookupType index n m1 m2 Hc)
      as (b & t & c & l & -> & -> & _).
    cbn [fst snd tuple cursor]. rewrite !calls_since_app. auto.
  - intros fuel. revert m1 m2 Hc.
    induction fuel as [|fuel IH]; intros m1 m2 Hc; [reflexivity|].
    cbn [walk]. unfold next_row.
    destruct (getNextTuple_reads_cursor_only lookupType index n m1 m2 Hc)
      as (b & t & c & l & -> & -> & ->).
    cbn [tuple].
    destruct t as [r|]; cbn [isNullTuple negb]; [ | reflexivity ].
    specialize (IH (mkMem (Some r) c (calls m1 ++ l))
                   (mkMem (Some r) c (calls m2 ++ l)) eq_refl).
    destruct (walk fuel lookupType index n (mkMem (Some r) c (calls m1 ++ l)))
      as [[rs1 e1]|];
      destruct (walk fuel lookupType index n
                  (mkMem (Some r) c (calls m2 ++ l))) as [[rs2 e2]|];
      cbn [rows_and_cursor] in IH |- *; congruence.
Qed.

(** X4: what [getNextTuple] reads of its first and last argument.  Of
    the lookup type only whether it is one of equality and geo-contains;
    of the number of active keys only whether it is zero, and not even
    that for the other lookup types.  So greater-than, less-or-equal and
    the like are one and the same to it, and a negative count acts as a
    positive one. *)
Theorem getNextTuple_reads_two_bits
    lookupType1 lookupType2 index n1 n2 m :
  is_eq_or_geo lookupType1 = is_eq_or_geo lookupType2 ->
  (is_eq_or_geo lookupType1 = true -> (n1 = 0%Z <-> n2 = 0%Z)) ->
  getNextTuple lookupType1 index n1 m
  = getNextTuple lookupType2 index n2 m.
Proof.
  intros Hclass Hzero.
  destruct (is_eq_or_geo lookupType1) eqn:H1; symmetry in Hclass.
  - specialize (Hzero eq_refl).
    assert (Hz : (n1 =? 0)%Z = (n2 =? 0)%Z).
    { destruct (Z.eqb_spec n1 0), (Z.eqb_spec n2 0); tauto. }
    destruct (nextValueAtKey index (cursor m)) as [[r|] c] eqn:E.
    + rewrite (getNextTuple_at_key lookupType1 index n1 m r c H1 E),
        (getNextTuple_at_key lookupType2 index n2 m r c Hclass E).
      reflexivity.
    + rewrite (getNextTuple_chain_end lookupType1 index n1 m c H1 E),
        (getNextTuple_chain_end lookupType2 index n2 m c Hclass E), Hz.
      reflexivity.
  - rewrite (getNextTuple_other lookupType1 index n1 m H1),
      (getNextTuple_other lookupType2 index n2 m Hclass).
    reflexivity.
Qed.

(** X5: the cost and the exit state of a loop over [getNextTuple].  When
    the loop ends after handing out [k] rows, the tuple in the slot is
    null, the log has only grown, and the index was called at least
    [k + 1] and at most [2 * (k + 1)] times; exactly [k + 1] times unless
    the lookup is equality or geo-contains with zero active keys. *)
Theorem walk_index_calls lookupType index n :
  forall fuel m rs m',
    walk fuel lookupType index n m = Some (rs, m') ->
    tuple m' = None
    /\ exists l,
        calls m' = calls m ++ l
        /\ (S (length rs) <= length l <= 2 * S (length rs))%nat
        /\ (is_eq_or_geo lookupType = false \/ n <> 0%Z ->
            length l = S (length rs)).
Proof.
  induction fuel as [|fuel IH]; intros m rs m' H; [discriminate H|].
  cbn [walk] in H. unfold next_row in H.
  destruct (getNextTuple_calls lookupType index n m)
    as (t & c & l & Hg & Hl).
  rewrite Hg in H. cbn [tuple] in H.
  assert (Hlen : (1 <= length l <= 2)%nat
                 /\ (is_eq_or_geo lookupType = false \/ n <> 0%Z ->
                     length l = 1%nat)).
  { destruct Hl as [-> | [-> | (-> & He & Hn)]]; cbn [length];
      (split; [lia|]); try reflexivity.
    intros [Hf | Hf]; [congruence | contradiction]. }
  destruct Hlen as [Hlen Hone].
  destruct t as [r|]; cbn [isNullTuple negb] in H.
  - destruct (walk fuel lookupType index n _) as [[rs' m'']|] eqn:E;
      [ | discriminate H ].
    injection H as <- <-.
    destruct (IH _ _ _ E) as (Hnull & l' & Hcalls & Hbound & Hexact).
    split; [exact Hnull|]. cbn [calls] in Hcalls.
    exists (l ++ l'). rewrite Hcalls, <- app_assoc, length_app.
    cbn [length]. repeat split; try lia.
    intros Hcase. rewrite (Hone Hcase), (Hexact Hcase). reflexivity.
  - injection H as <- <-. split; [reflexivity|].
    exists l. cbn [calls length]. repeat split; try lia.
    exact Hone.
Qed.

End WalkerLoops.

(** * Properties of the scan around the walker *)

Section ScanFacts.

Context {Row TableIndex IndexCursor Value Params : Type}.
Context {ops : TableIndexOps Row TableIndex IndexCursor}.
Context {pos : CursorPositioning Value TableIndex IndexCursor}.

Implicit Types (e : IndexScanExecutor Row) (index : TableIndex)
  (st : ScanState Row IndexCursor Value) (out : list Row)
  (R r : ScanResult Row IndexCursor Value)
  (node : IndexScanPlanNode Value Params).

Lemma add_rows_nil r : add_rows [] r = r.
Proof. now destruct r. Qed.

Lemma add_rows_app out1 out2 r :
  add_rows out1 (add_rows out2 r) = add_rows (out1 ++ out2) r.
Proof. unfold add_rows; cbn. now rewrite app_assoc. Qed.

(** The loop only ever appends to the rows it is given. *)
Lemma scan_loop_out fuel e index :
  forall counter st out,
    scan_loop fuel e index counter st out
    = option_map (add_rows out) (scan_loop fuel e index counter st []).
Proof.
  induction fuel as [|fuel IH]; intros counter st out; [reflexivity|].
  cbn [scan_loop].
  destruct (negb (isUnderLimit (scan_postfilter st)));
    [ cbn; unfold add_rows; cbn; now rewrite app_nil_r | ].
  destruct (next_row _ _ _ _) as [[r|] m'];
    [ | cbn; unfold add_rows; cbn; now rewrite app_nil_r ].
  destruct (_ && _);
    [ cbn; unfold add_rows; cbn; now rewrite app_nil_r | ].
  destruct (postfilter_eval _) as [[|] pf']; [ | apply IH ].
  rewrite (IH _ _ (out ++ [project e r])), (IH _ _ ([] ++ [project e r])).
  destruct (scan_loop fuel e index (S counter) _ []) as [r0|];
    [ cbn [option_map] | reflexivity ].
  now rewrite add_rows_app.
Qed.

(** More fuel never changes a result. *)
Lemma scan_loop_fuel_mono fuel e index :
  forall counter st out R fuel',
    scan_loop fuel e index counter st out = Some R ->
    (fuel <= fuel')%nat ->
    scan_loop fuel' e index counter st out = Some R.
Proof.
  induction fuel as [|fuel IH]; intros counter st out R fuel' H Hle;
    [discriminate H|].
  destruct fuel' as [|fuel'']; [lia|].
  cbn [scan_loop] in *.
  destruct (negb (isUnderLimit (scan_postfilter st))); [exact H|].
  destruct (next_row _ _ _ _) as [[r|] m']; [ | exact H ].
  destruct (_ && _); [exact H|].
  destruct (postfilter_eval _) as [keep pf'].
  apply IH with (fuel' := fuel'') in H; [exact H | lia].
Qed.

(** An executor that is not suspendable never looks at the counter or
    at the threshold. *)
Lemma scan_loop_not_suspendable fuel e e' index :
  m_suspendable e = false ->
  m_suspendable e' = false ->
  m_lookupType e' = m_lookupType e ->
  m_projector e' = m_projector e ->
  forall counter counter' st out,
    scan_loop fuel e' index counter' st out
    = scan_loop fuel e index counter st out.
Proof.
  intros Hs Hs' Hl Hp.
  induction fuel as [|fuel IH]; intros counter counter' st out;
    [reflexivity|].
  cbn [scan_loop]. rewrite Hs, Hs', Hl. cbn [andb].
  destruct (negb (isUnderLimit (scan_postfilter st))); [reflexivity|].
  destruct (next_row _ _ _ _) as [[r|] m']; [ | reflexivity ].
  destruct (postfilter_eval _) as [keep pf'].
  unfold project. rewrite Hp. apply IH.
Qed.

(** Such an executor ends an invocation on exhaustion or on the
    postfilter's limit, and the final state shows which. *)
Lemma scan_loop_not_suspendable_terminal fuel e index :
  m_suspendable e = false ->
  forall counter st out R,
    scan_loop fuel e index counter st out = Some R ->
    (status R = Exhausted /\ tuple (scan_mem (state R)) = None)
    \/ (status R = LimitReached
        /\ isUnderLimit (scan_postfilter (state R)) = false).
Proof.
  intros Hs.
  induction fuel as [|fuel IH]; intros counter st out R H;
    [discriminate H|].
  cbn [scan_loop] in H. rewrite Hs in H. cbn [andb] in H.
  destruct (isUnderLimit (scan_postfilter st)) eqn:Hu; cbn [negb] in H.
  - unfold next_row in H.
    destruct (getNextTuple_cases (m_lookupType e) index
                (Z.of_nat (length (scan_key st))) (scan_mem st))
      as (t & c & l & Hg & _).
    rewrite Hg in H. cbn [tuple] in H.
    destruct t as [r|]; cbn [isNullTuple negb] in H.
    + destruct (postfilter_eval _) as [keep pf']. eapply IH, H.
    + injection H as <-. left. split; reflexivity.
  - injection H as <-. right. split; [reflexivity | exact Hu].
Qed.

(** The start of a logical scan does not depend on the suspension
    settings. *)
Lemma start_scan_set_suspendable e flag limit node index
    (params : Params) :
  start_scan (set_suspendable e flag limit) node index params
  = start_scan e node index params.
Proof. reflexivity. Qed.

(** Where a suspendable invocation stands against the scan that is
    not suspendable: it either ends with the same result, or suspends
    at a state from which the rest of that scan follows, and with
    strictly less work left when its counter started under the
    threshold. *)
Lemma scan_loop_split e index limit :
  forall fuel counter0 st out R,
    scan_loop fuel (set_suspendable e false limit) index counter0 st out
    = Some R ->
    forall limit' fuel' counter,
      (fuel <= fuel')%nat ->
      scan_loop fuel' (set_suspendable e true limit') index counter st out
      = Some R
      \/ exists out1 st1 fuel1,
          scan_loop fuel' (set_suspendable e true limit') index counter
            st out
          = Some (mkScanResult out1 SuspendedMoreAvailable st1)
          /\ scan_loop fuel1 (set_suspendable e false limit) index 0
               st1 out1 = Some R
          /\ (fuel1 <= fuel)%nat
          /\ ((Z.of_nat counter < limit')%Z -> (fuel1 < fuel)%nat).
Proof.
  induction fuel as [|fuel IH];
    intros counter0 st out R H limit' fuel' counter Hle;
    [discriminate H|].
  destruct fuel' as [|fuel'']; [lia|].
  pose proof H as Hwhole.
  cbn [scan_loop set_suspendable m_suspendable m_lookupType
       m_tupleLimitForSuspendableFragments andb] in H |- *.
  destruct (negb (isUnderLimit (scan_postfilter st))); [now left|].
  destruct (next_row _ _ _ _) as [[r|] m']; [ | now left ].
  destruct (Z.leb_spec limit' (Z.of_nat counter)) as [Hreached | Hunder].
  - right. exists out, st, (S fuel). repeat split.
    + rewrite <- Hwhole.
      apply scan_loop_not_suspendable; reflexivity.
    + lia.
    + lia.
  - destruct (postfilter_eval _) as [keep pf'].
    unfold project in *.
    cbn [set_suspendable m_projector] in H |- *.
    destruct (IH _ _ _ _ H limit' fuel'' (S counter)) as
      [Hsame | (out1 & st1 & fuel1 & Hs & Hrest & Hf & _)]; [lia | | ].
    + now left.
    + right. exists out1, st1, fuel1. repeat split; auto; lia.
Qed.

Lemma resume_scan_terminal fuel e node index
    (invocations : list (Z * Params)) r :
  is_terminal (status r) = true ->
  resume_scan fuel e node index invocations r = Done r.
Proof.
  intros H. destruct invocations as [|[limit params] rest];
    cbn [resume_scan]; [ | rewrite H ]; reflexivity.
Qed.

(** Resumptions carry a suspended logical scan along the scan that is
    not suspendable: whatever parameters they are passed, they stop
    either at its result or suspended somewhere on the way to it, and
    with enough of them they reach it. *)
Lemma resume_scan_follows fuel e node index limit R :
  forall (invocations : list (Z * Params)) r fuel1,
    Forall (fun i => (0 < fst i)%Z) invocations ->
    status r = SuspendedMoreAvailable ->
    scan_loop fuel1 (set_suspendable e false limit) index 0
      (state r) (rows r) = Some R ->
    (fuel1 <= fuel)%nat ->
    exists R',
      resume_scan fuel e node index invocations r = Done R'
      /\ (is_terminal (status R') = true -> R' = R)
      /\ (status R' = SuspendedMoreAvailable ->
          exists fuel2,
            (fuel2 <= fuel)%nat
            /\ scan_loop fuel2 (set_suspendable e false limit) index 0
                 (state R') (rows R') = Some R)
      /\ ((fuel1 <= length invocations)%nat -> R' = R).
Proof.
  induction invocations as [|[limit' params] rest IH];
    intros r fuel1 Hpos Hsusp Hrest Hle.
  - exists r. cbn [resume_scan]. repeat split.
    + rewrite Hsusp. discriminate.
    + intros _. exists fuel1. auto.
    + cbn [length]. intros H0.
      assert (fuel1 = 0)%nat as -> by lia. discriminate Hrest.
  - inversion Hpos as [|? ? Hlimit Hpos']; subst. cbn [fst] in Hlimit.
    cbn [resume_scan]. rewrite Hsusp. cbn [is_terminal].
    unfold p_execute.
    destruct (scan_loop_split e index limit _ _ _ _ _ Hrest
                limit' fuel 0%nat Hle)
      as [Hsame | (out1 & st1 & fuel3 & Hs & Hrest' & Hf & Hlt)].
    + rewrite scan_loop_out in Hsame.
      destruct (scan_loop fuel _ index 0 (state r) []) as [r'|];
        [ | discriminate Hsame ].
      injection Hsame as Hsame.
      change (mkScanResult (rows r ++ rows r') (status r') (state r'))
        with (add_rows (rows r) r').
      rewrite Hsame.
      assert (Hterm : is_terminal (status R) = true).
      { destruct (scan_loop_not_suspendable_terminal _
                    (set_suspendable e false limit) index eq_refl
                    _ _ _ _ Hrest) as [[-> _] | [-> _]]; reflexivity. }
      exists R. rewrite (resume_scan_terminal _ _ _ _ _ _ Hterm).
      repeat split; auto.
      intros Hs. rewrite Hs in Hterm. discriminate Hterm.
    + rewrite scan_loop_out in Hs.
      destruct (scan_loop fuel _ index 0 (state r) []) as [r'|];
        [ | discriminate Hs ].
      injection Hs as Hrows Hstatus Hstate.
      rewrite Hrows, Hstatus, Hstate.
      destruct (IH (mkScanResult out1 SuspendedMoreAvailable st1) fuel3
                  Hpos' eq_refl Hrest' ltac:(lia))
        as (R' & Hres & Hterm & Hmid & Hfull).
      exists R'. repeat split; auto.
      intros Hlen. cbn [length] in Hlen. apply Hfull.
      specialize (Hlt ltac:(cbn; lia)). lia.
Qed.

(** C6: suspension is transparent.  Take any lookup type, index and
    plan, and let the scan in one invocation of a non-suspendable
    executor produce result [R].  Run the same logical scan as a
    suspendable one, with any positive threshold per invocation and
    any parameters passed at the resumptions.  The invocations succeed
    and their concatenated rows are a prefix of the rows of [R]: if the
    last status is terminal, rows, status and final state (cursor,
    postfilter counts, search key) are those of [R]; if it is still
    suspended, one non-suspendable invocation resumed from that state
    yields exactly the missing rows and the state of [R], whatever
    parameters it is passed; and enough invocations always reach [R]. *)
Theorem suspension_is_transparent fuel e node index
    (params : Params) R (limit0 : Z) (invocations : list (Z * Params)) :
  full_scan fuel e node index params = Done R ->
  (0 < limit0)%Z ->
  Forall (fun i => (0 < fst i)%Z) invocations ->
  exists R',
    suspended_scan fuel e node index (limit0, params) invocations
    = Done R'
    /\ (is_terminal (status R') = true -> R' = R)
    /\ (status R' = SuspendedMoreAvailable ->
        exists rest,
          rows R = rows R' ++ rest
          /\ forall params' limit,
              p_execute fuel (set_suspendable e false limit) node index
                params' (Some (state R'))
              = Done (mkScanResult rest (status R) (state R)))
    /\ ((fuel <= S (length invocations))%nat -> R' = R).
Proof.
  intros Hfull Hlimit Hpos.
  unfold full_scan, p_execute in Hfull.
  rewrite start_scan_set_suspendable in Hfull.
  unfold suspended_scan, p_execute. cbn [fst snd].
  rewrite start_scan_set_suspendable.
  destruct (start_scan e node index params) as [st0|];
    [ | discriminate Hfull ].
  destruct (scan_loop fuel _ index 0 st0 []) as [R0|] eqn:Hloop in Hfull;
    [ | discriminate Hfull ].
  injection Hfull as ->.
  assert (Hterm : is_terminal (status R) = true).
  { destruct (scan_loop_not_suspendable_terminal _
                (set_suspendable e false _) index eq_refl
                _ _ _ _ Hloop) as [[-> _] | [-> _]]; reflexivity. }
  destruct (scan_loop_split e index _ _ _ _ _ _ Hloop
              limit0 fuel 0%nat (le_n _))
    as [Hsame | (out1 & st1 & fuel1 & Hs & Hrest & Hf & Hlt)].
  - rewrite Hsame. exists R.
    rewrite (resume_scan_terminal _ _ _ _ _ _ Hterm).
    repeat split; auto.
    intros Hs. rewrite Hs in Hterm. discriminate Hterm.
  - rewrite Hs.
    destruct (resume_scan_follows fuel e node index _ _
                invocations (mkScanResult out1 SuspendedMoreAvailable st1)
                _ Hpos eq_refl Hrest Hf)
      as (R' & Hres & Hend & Hmid & Hall).
    exists R'. repeat split; auto.
    + intros Hsusp. destruct (Hmid Hsusp) as (fuel2 & Hle2 & Hloop2).
      rewrite scan_loop_out in Hloop2.
      destruct (scan_loop fuel2 _ index 0 (state R') []) as [r2|] eqn:H2;
        [ | discriminate Hloop2 ].
      injection Hloop2 as <-.
      exists (rows r2). split; [reflexivity|].
      intros params' limit. unfold p_execute.
      apply scan_loop_fuel_mono with (fuel' := fuel) in H2; [ | exact Hle2 ].
      rewrite (scan_loop_not_suspendable fuel
                 (set_suspendable e false
                    (m_tupleLimitForSuspendableFragments e))
                 (set_suspendable e false limit) index
                 eq_refl eq_refl eq_refl eq_refl 0 0 (state R') []).
      rewrite H2. now destruct r2.
    + intros Hlen. apply Hall. specialize (Hlt ltac:(cbn; lia)). lia.
Qed.

(** The loop of a non-suspendable executor against the match sequence
    of the walker, from any postfilter counts: the rows added are the
    window the remaining offset and limit cut out, the counts move by
    what was skipped and kept, and the status tells whether the limit
    was met. *)
Lemma scan_loop_window e index key :
  m_suspendable e = false ->
  forall fuel m ms m_end,
    walk fuel (m_lookupType e) index (Z.of_nat (length key)) m
    = Some (ms, m_end) ->
    forall counter o L s k out,
    exists R,
      scan_loop fuel e index counter
        (mkScanState key m (mkPostfilter o L s k)) out = Some R
      /\ rows R
         = out ++ map (project e)
                    (offset_limit_window (o - s)
                       (option_map (fun l => l - k)%nat L) ms)
      /\ pf_kept (scan_postfilter (state R))
         = (k + length (offset_limit_window (o - s)
                          (option_map (fun l => l - k)%nat L) ms))%nat
      /\ match L with
         | Some l =>
             if (l <=? k)%nat
             then status R = LimitReached
                  /\ pf_skipped (scan_postfilter (state R)) = s
             else pf_skipped (scan_postfilter (state R))
                  = (s + Nat.min (o - s) (length ms))%nat
                  /\ status R
                     = (if ((o - s) + (l - k) <=? length ms)%nat
                        then LimitReached else Exhausted)
         | None =>
             status R = Exhausted
             /\ pf_skipped (scan_postfilter (state R))
                = (s + Nat.min (o - s) (length ms))%nat
         end.
Proof.
  intros Hs.
  induction fuel as [|fuel IH]; intros m ms m_end Hw counter o L s k out;
    [discriminate Hw|].
  cbn [walk] in Hw. cbn [scan_loop]. rewrite Hs. cbn [andb].
  cbn [scan_key scan_mem scan_postfilter].
  unfold isUnderLimit, postfilter_eval.
  cbn [pf_limit pf_kept pf_skipped pf_offset].
  destruct (next_row _ _ _ m) as [[r|] m'].
  - destruct (walk fuel _ index _ m') as [[ms' m_end']|] eqn:Hw';
      [ | discriminate Hw ].
    injection Hw as <- <-.
    destruct L as [l|]; cbn [option_map offset_limit_window].
    + destruct (Nat.ltb_spec k l) as [Hk | Hk]; cbn [negb].
      * destruct (Nat.ltb_spec s o) as [Hso | Hso].
        -- destruct (IH m' ms' m_end' Hw' (S counter) o (Some l) (S s) k out)
             as (R & HR & Hrows & Hkept & Hrest).
           exists R. split; [exact HR|].
           cbn [option_map offset_limit_window] in Hrows, Hkept.
           replace (o - s)%nat with (S (o - S s)) by lia.
           cbn [skipn length]. repeat split; try assumption.
           destruct (Nat.leb_spec l k) as [|_]; [lia|].
           destruct Hrest as [-> ->]. split; [lia|].
           destruct (Nat.leb_spec (o - S s + (l - k)) (length ms'));
             destruct (Nat.leb_spec (S (o - S s) + (l - k)) (S (length ms')));
             try reflexivity; lia.
        -- destruct (IH m' ms' m_end' Hw' (S counter) o (Some l) s (S k)
                       (out ++ [project e r]))
             as (R & HR & Hrows & Hkept & Hrest).
           exists R. split; [exact HR|].
           cbn [option_map offset_limit_window] in Hrows, Hkept.
           replace (o - s)%nat with 0%nat in * by lia.
           replace (l - k)%nat with (S (l - S k)) by lia.
           cbn [skipn firstn map length] in *.
           rewrite Hrows, Hkept, <- app_assoc. cbn [app].
           repeat split; try lia.
           destruct (Nat.leb_spec l k) as [|_]; [lia|].
           destruct (Nat.leb_spec l (S k)) as [Hl | Hl].
           ++ destruct Hrest as [-> ->]. split; [lia|].
              destruct (Nat.leb_spec (0 + S (l - S k)) (S (length ms')));
                [reflexivity | lia].
           ++ destruct Hrest as [-> ->]. split; [lia|].
              destruct (Nat.leb_spec (0 + (l - S k)) (length ms'));
                destruct (Nat.leb_spec (0 + S (l - S k)) (S (length ms')));
                try reflexivity; lia.
      * eexists. split; [reflexivity|]. cbn [rows status state
          scan_postfilter pf_kept pf_skipped].
        replace (l - k)%nat with 0%nat by lia. cbn [firstn map length].
        rewrite app_nil_r, Nat.add_0_r.
        destruct (Nat.leb_spec l k); [auto | lia].
    + cbn [negb].
      destruct (Nat.ltb_spec s o) as [Hso | Hso].
      * destruct (IH m' ms' m_end' Hw' (S counter) o None (S s) k out)
          as (R & HR & Hrows & Hkept & Hst & Hsk).
        exists R. split; [exact HR|].
        cbn [option_map offset_limit_window] in Hrows, Hkept.
        replace (o - s)%nat with (S (o - S s)) by lia.
        cbn [skipn length]. repeat split; try assumption. lia.
      * destruct (IH m' ms' m_end' Hw' (S counter) o None s (S k)
                    (out ++ [project e r]))
          as (R & HR & Hrows & Hkept & Hst & Hsk).
        exists R. split; [exact HR|].
        cbn [option_map offset_limit_window] in Hrows, Hkept.
        replace (o - s)%nat with 0%nat in * by lia.
        cbn [skipn map length] in *.
        rewrite Hrows, Hkept, <- app_assoc. cbn [app].
        repeat split; try assumption; lia.
  - injection Hw as <- <-.
    assert (Hnil : forall n (l : option nat),
               offset_limit_window n l (@nil Row) = []).
    { intros n [l|]; cbn; rewrite skipn_nil; [apply firstn_nil | reflexivity]. }
    rewrite Hnil. cbn [map length]. rewrite app_nil_r, Nat.add_0_r.
    destruct L as [l|].
    + destruct (Nat.ltb_spec k l) as [Hk | Hk]; cbn [negb].
      * eexists. split; [reflexivity|].
        cbn [rows status state scan_postfilter pf_kept pf_skipped].
        repeat split.
        destruct (Nat.leb_spec l k); [lia|]. split; [lia|].
        destruct (Nat.leb_spec (o - s + (l - k)) 0); [lia | reflexivity].
      * eexists. split; [reflexivity|].
        cbn [rows status state scan_postfilter pf_kept pf_skipped].
        repeat split.
        destruct (Nat.leb_spec l k); [auto | lia].
    + cbn [negb]. eexists. split; [reflexivity|].
      cbn [rows status state scan_postfilter pf_kept pf_skipped].
      repeat split. lia.
Qed.

(** C7: a scan with inline offset [o] and limit [l], over the match
    sequence [ms] the walker yields for its key, emits the projections
    of [firstn l (skipn o ms)]: the first [o] matches are skipped and
    exactly max(0, min(l, total - o)) rows come out.  Where it stops is
    a function of [o], [l] and the match sequence alone: the status is
    limit-reached exactly when [l] is zero or [o + l] matches exist,
    and the postfilter has then counted [l] kept rows after the
    skipped ones. *)
Theorem postfilter_offset_limit_exact fuel e node index
    (params : Params) key ms m_end o l :
  inlineLimit node = Some (o, l) ->
  buildSearchKey (searchKeyExpressions node) params = Some key ->
  walk fuel (m_lookupType e) index (Z.of_nat (length key))
    (mkMem None
       (positionCursor index (m_lookupType e) (m_sortDirection e) key) [])
  = Some (ms, m_end) ->
  exists R,
    full_scan fuel e node index params = Done R
    /\ rows R = map (project e) (firstn l (skipn o ms))
    /\ Z.of_nat (length (rows R))
       = Z.max 0 (Z.min (Z.of_nat l)
                    (Z.of_nat (length ms) - Z.of_nat o))
    /\ status R
       = (if (l =? 0)%nat || (o + l <=? length ms)%nat
          then LimitReached else Exhausted)
    /\ pf_kept (scan_postfilter (state R)) = length (rows R)
    /\ pf_skipped (scan_postfilter (state R))
       = (if (l =? 0)%nat then 0 else Nat.min o (length ms))%nat.
Proof.
  intros Hlimit Hkey Hw.
  unfold full_scan, p_execute, start_scan.
  cbn [set_suspendable m_lookupType m_sortDirection].
  rewrite Hkey, Hlimit. cbn [new_postfilter].
  destruct (scan_loop_window
              (set_suspendable e false
                 (m_tupleLimitForSuspendableFragments e))
              index key eq_refl fuel _ ms m_end Hw 0%nat o (Some l)
              0%nat 0%nat [])
    as (R & HR & Hrows & Hkept & Hrest).
  rewrite HR. exists R. split; [reflexivity|].
  cbn [option_map offset_limit_window app] in Hrows, Hkept.
  rewrite !Nat.sub_0_r in *. cbn [Nat.add] in Hkept.
  assert (Hlen : length (rows R) = Nat.min l (length ms - o)).
  { rewrite Hrows, length_map, length_firstn, length_skipn. reflexivity. }
  assert (Hk : pf_kept (scan_postfilter (state R)) = length (rows R)).
  { rewrite Hkept, Hrows, length_map. reflexivity. }
  repeat split.
  - exact Hrows.
  - rewrite Hlen. lia.
  - destruct (Nat.leb_spec l 0) as [H0 | H0].
    + assert (l = 0)%nat as -> by lia. apply Hrest.
    + destruct Hrest as [_ ->]. cbn [Nat.add].
      replace (l =? 0)%nat with false
        by (symmetry; apply Nat.eqb_neq; lia).
      reflexivity.
  - exact Hk.
  - destruct (Nat.leb_spec l 0) as [H0 | H0].
    + assert (l = 0)%nat as -> by lia. apply Hrest.
    + destruct Hrest as [-> _].
      replace (l =? 0)%nat with false
        by (symmetry; apply Nat.eqb_neq; lia).
      reflexivity.
Qed.

(** C8: a freshly constructed executor is not suspendable, with the
    suspension threshold at its default of 1; and for every executor
    whose [p_isSuspendable] is [false], an invocation never ends
    suspended: it ends exhausted, the walker having answered with the
    null tuple, or with the postfilter's limit met, and the threshold
    has no influence on its result. *)
Theorem not_suspendable_never_stops_early :
  (forall n lookupType sortDirection,
      p_isSuspendable
        (new_IndexScanExecutor Row n lookupType sortDirection) = false
      /\ m_tupleLimitForSuspendableFragments
           (new_IndexScanExecutor Row n lookupType sortDirection) = 1%Z)
  /\ (forall e fuel node index (params : Params) resume R,
        p_isSuspendable e = false ->
        p_execute fuel e node index params resume = Done R ->
        status R <> SuspendedMoreAvailable
        /\ ((status R = Exhausted
             /\ tuple (scan_mem (state R)) = None)
            \/ (status R = LimitReached
                /\ isUnderLimit (scan_postfilter (state R)) = false))
        /\ forall limit,
            p_execute fuel (set_suspendable e false limit) node index
              params resume = Done R).
Proof.
  split; [ intros; split; reflexivity | ].
  intros e fuel node index params resume R Hs H.
  unfold p_isSuspendable in Hs. unfold p_execute in H.
  destruct (match resume with
            | Some st => Some st
            | None => start_scan e node index params
            end) as [st|] eqn:Hbegin; [ | discriminate H ].
  destruct (scan_loop fuel e index 0 st []) as [R0|] eqn:Hloop;
    [ | discriminate H ].
  injection H as ->.
  pose proof (scan_loop_not_suspendable_terminal fuel e index Hs
                _ _ _ _ Hloop) as Hend.
  repeat split.
  - destruct Hend as [[-> _] | [-> _]]; discriminate.
  - exact Hend.
  - intros limit. unfold p_execute.
    rewrite start_scan_set_suspendable, Hbegin.
    rewrite (scan_loop_not_suspendable fuel e
               (set_suspendable e false limit) index
               Hs eq_refl eq_refl eq_refl 0 0 st []).
    now rewrite Hloop.
Qed.

End ScanFacts.

(** * The model index *)

Lemma entry_at_length (prefix suffix : ModelIndex.Index) :
  ModelIndex.entry_at (prefix ++ suffix) (Z.of_nat (length prefix))
  = hd_error suffix.
Proof.
  unfold ModelIndex.entry_at.
  destruct (Z.ltb_spec (Z.of_nat (length prefix)) 0) as [H | _]; [lia|].
  rewrite Nat2Z.id, nth_error_app2, Nat.sub_diag by lia.
  now destruct suffix.
Qed.

(** From a forward cursor, the [nextValue] stream is the rest of the
    index in index order. *)
Lemma nextValue_stream_forward (suffix : ModelIndex.Index) :
  forall (prefix : ModelIndex.Index) t k l,
    nextValue_stream (S (length suffix)) (prefix ++ suffix)
      (mkMem t (ModelIndex.mkCursor (Z.of_nat (length prefix)) true k) l)
    = Some (suffix,
            mkMem None
              (ModelIndex.mkCursor
                 (Z.of_nat (length (prefix ++ suffix))) true k)
              (l ++ repeat CallNextValue (S (length suffix)))).
Proof.
  induction suffix as [|x suffix IH]; intros prefix t k l.
  - cbn [length]. rewrite nextValue_stream_step.
    cbn [cursor calls nextValue ModelIndex.model_ops].
    unfold ModelIndex.nextValue. cbn [ModelIndex.m_pos].
    rewrite entry_at_length. cbn [hd_error fst snd repeat].
    now rewrite app_nil_r.
  - cbn [length]. rewrite nextValue_stream_step.
    cbn [cursor calls nextValue ModelIndex.model_ops].
    unfold ModelIndex.nextValue. cbn [ModelIndex.m_pos].
    rewrite entry_at_length. cbn [hd_error fst snd].
    unfold ModelIndex.advance.
    cbn [ModelIndex.m_forward ModelIndex.m_pos ModelIndex.m_key].
    replace (Z.of_nat (length prefix) + 1)%Z
      with (Z.of_nat (length (prefix ++ [x])))
      by (rewrite length_app; cbn [length]; lia).
    replace (prefix ++ x :: suffix) with ((prefix ++ [x]) ++ suffix)
      by (now rewrite <- app_assoc).
    rewrite IH. cbn [repeat]. now rewrite <- (app_assoc l).
Qed.

(** With no active key and a lookup type other than equality and
    geo-contains, the walker placed at the start hands out the whole
    index in ascending order. *)
Lemma walk_no_key_is_full_ordered_scan (index : ModelIndex.Index)
    lookupType :
  lookupType <> INDEX_LOOKUP_TYPE_EQ ->
  lookupType <> INDEX_LOOKUP_TYPE_GEO_CONTAINS ->
  walk (S (length index)) lookupType index 0
    (ModelIndex.fresh
       (ModelIndex.position index lookupType SORT_DIRECTION_TYPE_ASC []))
  = Some (index,
          mkMem None
            (ModelIndex.mkCursor (Z.of_nat (length index)) true None)
            (repeat CallNextValue (S (length index)))).
Proof.
  intros H1 H2.
  rewrite walk_other_is_stream by (apply is_eq_or_geo_false; auto).
  exact (nextValue_stream_forward index [] None None []).
Qed.

(** C5: on the index with column [A] holding 1, 1, 2, 3, iterating
    [getNextTuple] with an equality lookup and the one-column key 1
    hands out the two rows with [A = 1], in chain order, and then
    answers [false]; with a greater-than lookup and the key 1 it hands
    out the rows with [A = 2] and [A = 3], in that order, and then
    answers [false]; the step after the last row is spelled out for
    both.  The scans built on the walker emit the same rows and end
    exhausted. *)
Theorem sample_index_equality_and_greater_than (fuel : nat) :
  walk (3 + fuel) INDEX_LOOKUP_TYPE_EQ ModelIndex.sample 1
    (ModelIndex.fresh
       (ModelIndex.position ModelIndex.sample INDEX_LOOKUP_TYPE_EQ
          SORT_DIRECTION_TYPE_ASC [1%Z]))
  = Some ([ModelIndex.mkEntry 1 0; ModelIndex.mkEntry 1 1],
          mkMem None (ModelIndex.mkCursor 2 true (Some 1%Z))
            [CallNextValueAtKey; CallNextValueAtKey; CallNextValueAtKey])
  /\ getNextTuple INDEX_LOOKUP_TYPE_EQ ModelIndex.sample 1
       (mkMem (Some (ModelIndex.mkEntry 1 1))
          (ModelIndex.mkCursor 2 true (Some 1%Z))
          [CallNextValueAtKey; CallNextValueAtKey])
     = (false,
        mkMem None (ModelIndex.mkCursor 2 true (Some 1%Z))
          [CallNextValueAtKey; CallNextValueAtKey; CallNextValueAtKey])
  /\ walk (3 + fuel) INDEX_LOOKUP_TYPE_GT ModelIndex.sample 1
       (ModelIndex.fresh
          (ModelIndex.position ModelIndex.sample INDEX_LOOKUP_TYPE_GT
             SORT_DIRECTION_TYPE_ASC [1%Z]))
     = Some ([ModelIndex.mkEntry 2 2; ModelIndex.mkEntry 3 3],
             mkMem None (ModelIndex.mkCursor 4 true None)
               [CallNextValue; CallNextValue; CallNextValue])
  /\ getNextTuple INDEX_LOOKUP_TYPE_GT ModelIndex.sample 1
       (mkMem (Some (ModelIndex.mkEntry 3 3))
          (ModelIndex.mkCursor 4 true None)
          [CallNextValue; CallNextValue])
     = (false,
        mkMem None (ModelIndex.mkCursor 4 true None)
          [CallNextValue; CallNextValue; CallNextValue])
  /\ (exists st,
        full_scan (3 + fuel) (ModelIndex.executor INDEX_LOOKUP_TYPE_EQ)
          (ModelIndex.one_key_plan None) ModelIndex.sample [1%Z]
        = Done (mkScanResult
                  [ModelIndex.mkEntry 1 0; ModelIndex.mkEntry 1 1]
                  Exhausted st))
  /\ (exists st,
        full_scan (3 + fuel) (ModelIndex.executor INDEX_LOOKUP_TYPE_GT)
          (ModelIndex.one_key_plan None) ModelIndex.sample [1%Z]
        = Done (mkScanResult
                  [ModelIndex.mkEntry 2 2; ModelIndex.mkEntry 3 3]
                  Exhausted st)).
Proof.
  repeat split; try reflexivity; eexists; reflexivity.
Qed.

(** * The statements at concrete inputs *)

(** The first step of an equality lookup for key 1 on the sample index. *)
Lemma getNextTuple_eq_geo_next_value_at_key_first_witness :
  (INDEX_LOOKUP_TYPE_EQ = INDEX_LOOKUP_TYPE_EQ
   \/ INDEX_LOOKUP_TYPE_EQ = INDEX_LOOKUP_TYPE_GEO_CONTAINS)
  /\ getNextTuple INDEX_LOOKUP_TYPE_EQ ModelIndex.sample 1
       (ModelIndex.fresh (ModelIndex.moveToKey 1 ModelIndex.sample))
     = (true,
        mkMem (Some (ModelIndex.mkEntry 1 0))
          (ModelIndex.mkCursor 1 true (Some 1%Z)) [CallNextValueAtKey]).
Proof.
  split; [left; reflexivity|].
  exact (proj1 (proj2 (getNextTuple_eq_geo_next_value_at_key_first
                         INDEX_LOOKUP_TYPE_EQ ModelIndex.sample 1
                         (ModelIndex.fresh
                            (ModelIndex.moveToKey 1 ModelIndex.sample))
                         (or_introl eq_refl))
                 (ModelIndex.mkEntry 1 0)
                 (ModelIndex.mkCursor 1 true (Some 1%Z)) eq_refl)).
Defined.

(** The first step of a greater-than lookup bounded at 1. *)
Lemma getNextTuple_other_lookup_is_next_value_witness :
  INDEX_LOOKUP_TYPE_GT <> INDEX_LOOKUP_TYPE_EQ
  /\ INDEX_LOOKUP_TYPE_GT <> INDEX_LOOKUP_TYPE_GEO_CONTAINS
  /\ getNextTuple INDEX_LOOKUP_TYPE_GT ModelIndex.sample 1
       (ModelIndex.fresh
          (ModelIndex.moveToGreaterThanKey 1 ModelIndex.sample))
     = (true,
        mkMem (Some (ModelIndex.mkEntry 2 2))
          (ModelIndex.mkCursor 3 true None) [CallNextValue]).
Proof.
  assert (H1 : INDEX_LOOKUP_TYPE_GT <> INDEX_LOOKUP_TYPE_EQ)
    by discriminate.
  assert (H2 : INDEX_LOOKUP_TYPE_GT <> INDEX_LOOKUP_TYPE_GEO_CONTAINS)
    by discriminate.
  split; [exact H1|]. split; [exact H2|].
  exact (proj1 (getNextTuple_other_lookup_is_next_value
                  INDEX_LOOKUP_TYPE_GT ModelIndex.sample 1
                  (ModelIndex.fresh
                     (ModelIndex.moveToGreaterThanKey 1 ModelIndex.sample))
                  H1 H2)).
Defined.

(** The third step of the equality lookup for key 1: the chain of two
    duplicates has run out and one key is active. *)
Lemma getNextTuple_chain_exhausted_witness :
  (INDEX_LOOKUP_TYPE_EQ = INDEX_LOOKUP_TYPE_EQ
   \/ INDEX_LOOKUP_TYPE_EQ = INDEX_LOOKUP_TYPE_GEO_CONTAINS)
  /\ nextValueAtKey ModelIndex.sample
       (ModelIndex.mkCursor 2 true (Some 1%Z))
     = (None, ModelIndex.mkCursor 2 true (Some 1%Z))
  /\ getNextTuple INDEX_LOOKUP_TYPE_EQ ModelIndex.sample 1
       (ModelIndex.fresh (ModelIndex.mkCursor 2 true (Some 1%Z)))
     = (false,
        mkMem None (ModelIndex.mkCursor 2 true (Some 1%Z))
          [CallNextValueAtKey]).
Proof.
  split; [left; reflexivity|]. split; [reflexivity|].
  refine (proj2 (proj2 (getNextTuple_chain_exhausted
                          INDEX_LOOKUP_TYPE_EQ ModelIndex.sample 1
                          (ModelIndex.fresh
                             (ModelIndex.mkCursor 2 true (Some 1%Z)))
                          (ModelIndex.mkCursor 2 true (Some 1%Z))
                          (or_introl eq_refl) eq_refl)) _).
  discriminate.
Defined.

(** A greater-than lookup whose cursor stands past the last entry. *)
Lemma getNextTuple_null_is_exhaustion_witness :
  (is_eq_or_geo INDEX_LOOKUP_TYPE_GT = true ->
   fst (nextValueAtKey ModelIndex.sample
          (ModelIndex.mkCursor 4 true None)) = None)
  /\ (takes_second_branch INDEX_LOOKUP_TYPE_GT 1 = true ->
      fst (nextValue ModelIndex.sample
             (cursor_at_second_branch INDEX_LOOKUP_TYPE_GT
                ModelIndex.sample
                (ModelIndex.fresh (ModelIndex.mkCursor 4 true None))))
      = None)
  /\ exists m',
      getNextTuple INDEX_LOOKUP_TYPE_GT ModelIndex.sample 1
        (ModelIndex.fresh (ModelIndex.mkCursor 4 true None))
      = (false, m')
      /\ tuple m' = None
      /\ NoDup (calls_since
                  (ModelIndex.fresh (ModelIndex.mkCursor 4 true None)) m')
      /\ (length (calls_since
                    (ModelIndex.fresh (ModelIndex.mkCursor 4 true None)) m')
          <= 2)%nat.
Proof.
  split; [intros _; reflexivity|]. split; [intros _; reflexivity|].
  apply (getNextTuple_null_is_exhaustion INDEX_LOOKUP_TYPE_GT
           ModelIndex.sample 1
           (ModelIndex.fresh (ModelIndex.mkCursor 4 true None)));
    intros _; reflexivity.
Defined.

(** A greater-or-equal scan from key 1 over the four sample rows, in one
    invocation and in invocations of at most 2, 2, 1 and 5 rows. *)
Lemma suspension_is_transparent_witness :
  full_scan 5 (ModelIndex.executor INDEX_LOOKUP_TYPE_GTE)
    (ModelIndex.one_key_plan None) ModelIndex.sample [1%Z]
  = Done ModelIndex.sample_result
  /\ (0 < 2)%Z
  /\ Forall (fun i : Z * list Z => (0 < fst i)%Z)
       [(2%Z, []); (1%Z, [7%Z]); (5%Z, []); (3%Z, [])]
  /\ suspended_scan 5 (ModelIndex.executor INDEX_LOOKUP_TYPE_GTE)
       (ModelIndex.one_key_plan None) ModelIndex.sample (2%Z, [1%Z])
       [(2%Z, []); (1%Z, [7%Z]); (5%Z, []); (3%Z, [])]
     = Done ModelIndex.sample_result.
Proof.
  assert (Hpos : Forall (fun i : Z * list Z => (0 < fst i)%Z)
                   [(2%Z, []); (1%Z, [7%Z]); (5%Z, []); (3%Z, [])])
    by (repeat constructor).
  assert (Hfull : full_scan 5 (ModelIndex.executor INDEX_LOOKUP_TYPE_GTE)
                    (ModelIndex.one_key_plan None) ModelIndex.sample [1%Z]
                  = Done ModelIndex.sample_result)
    by reflexivity.
  split; [exact Hfull|]. split; [reflexivity|]. split; [exact Hpos|].
  destruct (suspension_is_transparent 5
              (ModelIndex.executor INDEX_LOOKUP_TYPE_GTE)
              (ModelIndex.one_key_plan None) ModelIndex.sample [1%Z]
              ModelIndex.sample_result
              2%Z [(2%Z, []); (1%Z, [7%Z]); (5%Z, []); (3%Z, [])]
              Hfull eq_refl Hpos)
    as (R' & Hrun & _ & _ & Hall).
  rewrite Hrun. f_equal. apply Hall. apply le_n.
Defined.

(** The same scan with offset 1 and limit 2. *)
Lemma postfilter_offset_limit_exact_witness :
  ModelIndex.one_key_plan (Some (1, 2)%nat)
  = ModelIndex.one_key_plan (Some (1, 2)%nat)
  /\ buildSearchKey [ModelIndex.param_expr 0] [1%Z] = Some [1%Z]
  /\ walk 5 INDEX_LOOKUP_TYPE_GTE ModelIndex.sample 1
       (ModelIndex.fresh
          (ModelIndex.position ModelIndex.sample INDEX_LOOKUP_TYPE_GTE
             SORT_DIRECTION_TYPE_ASC [1%Z]))
     = Some (ModelIndex.sample,
             mkMem None (ModelIndex.mkCursor 4 true None)
               (repeat CallNextValue 5))
  /\ exists R,
      full_scan 5 (ModelIndex.executor INDEX_LOOKUP_TYPE_GTE)
        (ModelIndex.one_key_plan (Some (1, 2)%nat)) ModelIndex.sample
        [1%Z] = Done R
      /\ rows R = [ModelIndex.mkEntry 1 1; ModelIndex.mkEntry 2 2]
      /\ Z.of_nat (length (rows R)) = 2%Z
      /\ status R = LimitReached
      /\ pf_kept (scan_postfilter (state R)) = length (rows R)
      /\ pf_skipped (scan_postfilter (state R)) = 1%nat.
Proof.
  split; [reflexivity|]. split; [reflexivity|]. split; [reflexivity|].
  exact (postfilter_offset_limit_exact 5
           (ModelIndex.executor INDEX_LOOKUP_TYPE_GTE)
           (ModelIndex.one_key_plan (Some (1, 2)%nat)) ModelIndex.sample
           [1%Z] [1%Z] ModelIndex.sample _ 1%nat 2%nat
           eq_refl eq_refl eq_refl).
Defined.

(** The executor as constructed, run on the sample index. *)
Lemma not_suspendable_never_stops_early_witness :
  p_isSuspendable (ModelIndex.executor INDEX_LOOKUP_TYPE_GTE) = false
  /\ p_execute 5 (ModelIndex.executor INDEX_LOOKUP_TYPE_GTE)
       (ModelIndex.one_key_plan None) ModelIndex.sample [1%Z] None
     = Done ModelIndex.sample_result
  /\ Exhausted <> SuspendedMoreAvailable.
Proof.
  split; [reflexivity|]. split; [reflexivity|].
  exact (proj1 (proj2 (not_suspendable_never_stops_early
                         (Row := ModelIndex.Entry))
                  (ModelIndex.executor INDEX_LOOKUP_TYPE_GTE) 5
                  (ModelIndex.one_key_plan None) ModelIndex.sample [1%Z]
                  None ModelIndex.sample_result eq_refl eq_refl)).
Defined.

(** The equality lookup for key 1 on the sample index, as a loop. *)
Lemma walk_equality_is_duplicate_chain_witness :
  (INDEX_LOOKUP_TYPE_EQ = INDEX_LOOKUP_TYPE_EQ
   \/ INDEX_LOOKUP_TYPE_EQ = INDEX_LOOKUP_TYPE_GEO_CONTAINS)
  /\ 1%Z <> 0%Z
  /\ walk 3 INDEX_LOOKUP_TYPE_EQ ModelIndex.sample 1
       (ModelIndex.fresh (ModelIndex.moveToKey 1 ModelIndex.sample))
     = nextValueAtKey_stream 3 ModelIndex.sample
         (ModelIndex.fresh (ModelIndex.moveToKey 1 ModelIndex.sample)).
Proof.
  assert (Hn : 1%Z <> 0%Z) by discriminate.
  split; [left; reflexivity|]. split; [exact Hn|].
  exact (proj1 (walk_equality_is_duplicate_chain
                  INDEX_LOOKUP_TYPE_EQ ModelIndex.sample 1
                  (or_introl eq_refl) Hn 3
                  (ModelIndex.fresh
                     (ModelIndex.moveToKey 1 ModelIndex.sample)))).
Defined.

(** An equality lookup without a key on the sample index: the cursors
    placed on no duplicate chain are the ones [nextValueAtKey] answers
    null for, and the loop hands out the whole index. *)
Lemma walk_equality_no_key_is_stream_witness :
  (INDEX_LOOKUP_TYPE_EQ = INDEX_LOOKUP_TYPE_EQ
   \/ INDEX_LOOKUP_TYPE_EQ = INDEX_LOOKUP_TYPE_GEO_CONTAINS)
  /\ (forall c, ModelIndex.m_key c = None ->
        nextValueAtKey ModelIndex.sample c = (None, c))
  /\ (forall c, ModelIndex.m_key c = None ->
        ModelIndex.m_key (snd (nextValue ModelIndex.sample c)) = None)
  /\ ModelIndex.m_key
       (cursor (ModelIndex.fresh
                  (ModelIndex.moveToEnd true ModelIndex.sample))) = None
  /\ rows_and_cursor
       (walk 5 INDEX_LOOKUP_TYPE_EQ ModelIndex.sample 0
          (ModelIndex.fresh (ModelIndex.moveToEnd true ModelIndex.sample)))
     = Some (ModelIndex.sample, ModelIndex.mkCursor 4 true None).
Proof.
  assert (Hnull : forall c, ModelIndex.m_key c = None ->
                    nextValueAtKey ModelIndex.sample c = (None, c)).
  { intros [p f k] Hk. cbn in Hk. subst k. cbn.
    unfold ModelIndex.nextValueAtKey. cbn.
    destruct (ModelIndex.entry_at ModelIndex.sample p); reflexivity. }
  assert (Hkeep : forall c, ModelIndex.m_key c = None ->
                    ModelIndex.m_key (snd (nextValue ModelIndex.sample c))
                    = None).
  { intros [p f k] Hk. cbn in Hk. subst k. cbn.
    unfold ModelIndex.nextValue. cbn.
    destruct (ModelIndex.entry_at ModelIndex.sample p); reflexivity. }
  split; [left; reflexivity|]. split; [exact Hnull|].
  split; [exact Hkeep|]. split; [reflexivity|].
  exact (walk_equality_no_key_is_stream
           (fun c => ModelIndex.m_key c = None)
           INDEX_LOOKUP_TYPE_EQ ModelIndex.sample
           (or_introl eq_refl) Hnull Hkeep 5
           (ModelIndex.fresh (ModelIndex.moveToEnd true ModelIndex.sample))
           eq_refl).
Defined.

(** The same cursor under a null slot with an empty log and under a
    stale row with a call logged. *)
Lemma getNextTuple_state_is_the_cursor_witness :
  cursor (ModelIndex.fresh (ModelIndex.moveToKey 1 ModelIndex.sample))
  = cursor (mkMem (Some (ModelIndex.mkEntry 3 3))
              (ModelIndex.moveToKey 1 ModelIndex.sample) [CallNextValue])
  /\ rows_and_cursor
       (walk 3 INDEX_LOOKUP_TYPE_EQ ModelIndex.sample 1
          (ModelIndex.fresh (ModelIndex.moveToKey 1 ModelIndex.sample)))
     = rows_and_cursor
         (walk 3 INDEX_LOOKUP_TYPE_EQ ModelIndex.sample 1
            (mkMem (Some (ModelIndex.mkEntry 3 3))
               (ModelIndex.moveToKey 1 ModelIndex.sample)
               [CallNextValue])).
Proof.
  split; [reflexivity|].
  exact (proj2 (getNextTuple_state_is_the_cursor
                  INDEX_LOOKUP_TYPE_EQ ModelIndex.sample 1
                  (ModelIndex.fresh
                     (ModelIndex.moveToKey 1 ModelIndex.sample))
                  (mkMem (Some (ModelIndex.mkEntry 3 3))
                     (ModelIndex.moveToKey 1 ModelIndex.sample)
                     [CallNextValue])
                  eq_refl) 3).
Defined.

(** Equality with seven active keys against geo-contains with a count
    of minus two. *)
Lemma getNextTuple_reads_two_bits_witness :
  is_eq_or_geo INDEX_LOOKUP_TYPE_EQ
  = is_eq_or_geo INDEX_LOOKUP_TYPE_GEO_CONTAINS
  /\ (is_eq_or_geo INDEX_LOOKUP_TYPE_EQ = true ->
      (7%Z = 0%Z <-> (-2)%Z = 0%Z))
  /\ getNextTuple INDEX_LOOKUP_TYPE_EQ ModelIndex.sample 7
       (ModelIndex.fresh (ModelIndex.mkCursor 2 true (Some 1%Z)))
     = getNextTuple INDEX_LOOKUP_TYPE_GEO_CONTAINS ModelIndex.sample (-2)
         (ModelIndex.fresh (ModelIndex.mkCursor 2 true (Some 1%Z))).
Proof.
  assert (Hz : is_eq_or_geo INDEX_LOOKUP_TYPE_EQ = true ->
               (7%Z = 0%Z <-> (-2)%Z = 0%Z))
    by (intros _; split; intros H; discriminate H).
  split; [reflexivity|]. split; [exact Hz|].
  exact (getNextTuple_reads_two_bits
           INDEX_LOOKUP_TYPE_EQ INDEX_LOOKUP_TYPE_GEO_CONTAINS
           ModelIndex.sample 7 (-2)
           (ModelIndex.fresh (ModelIndex.mkCursor 2 true (Some 1%Z)))
           eq_refl Hz).
Defined.

(** The equality lookup without a key over the four sample rows: ten
    index calls for four rows. *)
Lemma walk_index_calls_witness :
  walk 5 INDEX_LOOKUP_TYPE_EQ ModelIndex.sample 0
    (ModelIndex.fresh (ModelIndex.moveToEnd true ModelIndex.sample))
  = Some (ModelIndex.sample,
          mkMem None (ModelIndex.mkCursor 4 true None)
            [CallNextValueAtKey; CallNextValue;
             CallNextValueAtKey; CallNextValue;
             CallNextValueAtKey; CallNextValue;
             CallNextValueAtKey; CallNextValue;
             CallNextValueAtKey; CallNextValue])
  /\ exists l,
      [CallNextValueAtKey; CallNextValue;
       CallNextValueAtKey; CallNextValue;
       CallNextValueAtKey; CallNextValue;
       CallNextValueAtKey; CallNextValue;
       CallNextValueAtKey; CallNextValue] = [] ++ l
      /\ (5 <= length l <= 10)%nat.
Proof.
  assert (Hw : walk 5 INDEX_LOOKUP_TYPE_EQ ModelIndex.sample 0
                 (ModelIndex.fresh
                    (ModelIndex.moveToEnd true ModelIndex.sample))
               = Some (ModelIndex.sample,
                       mkMem None (ModelIndex.mkCursor 4 true None)
                         [CallNextValueAtKey; CallNextValue;
                          CallNextValueAtKey; CallNextValue;
                          CallNextValueAtKey; CallNextValue;
                          CallNextValueAtKey; CallNextValue;
                          CallNextValueAtKey; CallNextValue]))
    by reflexivity.
  split; [exact Hw|].
  destruct (walk_index_calls INDEX_LOOKUP_TYPE_EQ ModelIndex.sample 0
              5 _ _ _ Hw) as (_ & l & Hcalls & Hbound & _).
  exists l. split; [exact Hcalls | exact Hbound].
Defined.
